(** * Polymarket trade alert bot: a shallow embedding of
      [poll_polymarket_alert.py] and its specification.

    The bot keeps two dictionaries, [subs] (subscriber -> watched addresses)
    and [seen] (address -> last notified transaction hash), and runs two
    loops over them: the Telegram command loop ([process_update]) and the
    notification loop ([poll_subscriptions]).

    Modelling conventions.
    - A Python string is the [string] of its UTF-8 bytes.  [len] and slices
      count code points.  [str.strip], [str.split] and [str.lower] are given
      for the ASCII range, which is where addresses, hashes and commands
      live: a statement that depends on them for an arbitrary text carries
      the hypothesis [PyStr.isascii].
    - A float is carried by the text that [repr] prints for it.
    - A JSON document handed back by [json.load] or [r.json()] is a [json]
      value; a JSON object is an association list read through [PyDict.get].
    - [subs] is an insertion-ordered dictionary, kept as an association list
      because the notification loop iterates over [subs.items()].  [seen] is
      only looked up and updated by key and is a [gmap].
    - The effects of the program (Telegram messages, rewrites of the two
      state files, log lines) are collected in a trace of [event]s.
    - The answers of the three remote services are inputs of a step and are
      gathered in a record [net].
    - A step of either loop runs alone: the two threads are not interleaved.
      Writing a state file and posting a message always go through; what
      [send_telegram] prints when the post fails is not in the trace.
    - Floating point and the calendar stay outside: the text of a float
      quotient and of a time stamp are parameters of the development.  Both
      are partial, as the conversions are: [utcfromtimestamp] raises on a
      number of seconds outside the calendar, and the quotient of two
      integers raises when it does not fit a float. *)

From Stdlib Require Import ZArith String Ascii List.
From stdpp Require Import gmap strings pretty list fin_maps.

Open Scope string_scope.
Open Scope list_scope.

(** ** Strings *)

Module PyStr.

(** [s.isascii()] *)
Definition isascii (s : string) : bool :=
  forallb (fun c => (N_of_ascii c <? 128)%N) (list_ascii_of_string s).

(** A byte that continues a code point (binary 10xxxxxx). *)
Definition is_continuation (c : ascii) : bool :=
  let n := N_of_ascii c in
  ((128 <=? n) && (n <=? 191))%N.

(** [len(s)]: the number of code points. *)
Fixpoint len (s : string) : nat :=
  match s with
  | EmptyString => 0
  | String c s' => if is_continuation c then len s' else S (len s')
  end.

(** [str.isspace] on the ASCII range: TAB..CR, FS..US and the blank. *)
Definition is_space (c : ascii) : bool :=
  let n := N_of_ascii c in
  ((9 <=? n) && (n <=? 13) || (28 <=? n) && (n <=? 32))%N.

Definition lower_char (c : ascii) : ascii :=
  let n := N_of_ascii c in
  if ((65 <=? n) && (n <=? 90))%N then ascii_of_N (n + 32) else c.

(** [s.lower()] *)
Fixpoint lower (s : string) : string :=
  match s with
  | EmptyString => EmptyString
  | String c s' => String (lower_char c) (lower s')
  end.

(** [s.lstrip()] *)
Fixpoint lstrip (s : string) : string :=
  match s with
  | EmptyString => EmptyString
  | String c s' => if is_space c then lstrip s' else s
  end.

Definition is_empty (s : string) : bool :=
  match s with EmptyString => true | _ => false end.

(** [s.rstrip()] *)
Fixpoint rstrip (s : string) : string :=
  match s with
  | EmptyString => EmptyString
  | String c s' =>
      let r := rstrip s' in
      if is_space c && is_empty r then EmptyString else String c r
  end.

(** [s.strip()] *)
Definition strip (s : string) : string := rstrip (lstrip s).

(** The longest whitespace-free prefix of [s], and what follows it. *)
Fixpoint span_token (s : string) : string * string :=
  match s with
  | EmptyString => (EmptyString, EmptyString)
  | String c s' =>
      if is_space c then (EmptyString, s)
      else let '(tok, rest) := span_token s' in (String c tok, rest)
  end.

(** [s.split(maxsplit=1)]: the first whitespace-delimited token, then the
    remaining text with its leading whitespace dropped, when there is any. *)
Definition split_maxsplit1 (s : string) : list string :=
  let s1 := lstrip s in
  if is_empty s1 then []
  else
    let '(tok, rest) := span_token s1 in
    let r := lstrip rest in
    if is_empty r then [tok] else [tok; r].

(** [s.startswith(p)] *)
Definition startswith (p s : string) : bool := String.prefix p s.

(** [s[:n]]: the first [n] code points. *)
Fixpoint take (n : nat) (s : string) : string :=
  match s with
  | EmptyString => EmptyString
  | String c s' =>
      if is_continuation c then String c (take n s')
      else match n with
           | O => EmptyString
           | S n' => String c (take n' s')
           end
  end.

(** The line feed that Python writes as a backslash followed by n inside a
    plain literal.  (Where the source doubles the backslash the two
    characters stay in the text, see [fmt_tx_message_for_subscribers].) *)
Definition nl : string := String (ascii_of_N 10) EmptyString.

(** [sep.join(l)] *)
Fixpoint join (sep : string) (l : list string) : string :=
  match l with
  | [] => EmptyString
  | [x] => x
  | x :: l' => x +:+ sep +:+ join sep l'
  end.

Definition all_space (s : string) : Prop :=
  Forall (fun c => is_space c = true) (list_ascii_of_string s).

Definition no_space (s : string) : Prop :=
  Forall (fun c => is_space c = false) (list_ascii_of_string s).

End PyStr.

(** ** JSON values and Python dictionaries *)

#[warnings="-register-all"] Inductive json : Type :=
| JNull
| JBool (b : bool)
| JInt (n : Z)
| JFloat (repr : string)           (* the decoded double, as [repr] prints it *)
| JStr (s : string)
| JArr (items : list json)
| JObj (fields : list (string * json)).

Inductive exn : Type :=
| AttributeError
| TypeError
| IndexError
| ValueError
| OverflowError
| RequestError.       (* anything [requests] raises: timeout, HTTP status, bad body *)

Inductive result (A : Type) : Type :=
| Ret (a : A)
| Raise (e : exn).
Arguments Ret {A} a.
Arguments Raise {A} e.

Module PyDict.
Section Dict.
Context {V : Type}.

(** [d.get(k)]; [None] when the key is missing. *)
Fixpoint get (k : string) (d : list (string * V)) : option V :=
  match d with
  | [] => None
  | (k', v) :: d' => if decide (k = k') then Some v else get k d'
  end.

(** [d[k] = v]: an existing key keeps its place, a new one goes last. *)
Fixpoint set (k : string) (v : V) (d : list (string * V)) : list (string * V) :=
  match d with
  | [] => [(k, v)]
  | (k', v') :: d' =>
      if decide (k = k') then (k, v) :: d' else (k', v') :: set k v d'
  end.

End Dict.
End PyDict.

(** Python truthiness of a decoded JSON value. *)
Definition truthy (v : json) : bool :=
  match v with
  | JNull => false
  | JBool b => b
  | JInt n => negb (n =? 0)%Z
  | JFloat r => negb (bool_decide (r = "0.0") || bool_decide (r = "-0.0"))
  | JStr s => negb (PyStr.is_empty s)
  | JArr l => match l with [] => false | _ => true end
  | JObj o => match o with [] => false | _ => true end
  end.

(** [v.get(k)] and [v.get(k, default)]: only a dict has the method. *)
Definition json_get (k : string) (v : json) : result json :=
  match v with
  | JObj o => Ret (default JNull (PyDict.get k o))
  | _ => Raise AttributeError
  end.

Definition json_get_default (k : string) (dflt : json) (v : json) : result json :=
  match v with
  | JObj o => Ret (default dflt (PyDict.get k o))
  | _ => Raise AttributeError
  end.

(** [for t in v]: a list yields its items, a dict its keys, a string its
    characters; nothing else is iterable. *)
Definition json_iter (v : json) : result (list json) :=
  match v with
  | JArr l => Ret l
  | JObj o => Ret (map (fun kv => JStr (fst kv)) o)
  | JStr s => Ret (map (fun c => JStr (String c EmptyString)) (list_ascii_of_string s))
  | _ => Raise TypeError
  end.

(** ** Program state and effects *)

(** A transaction record of the chain-data API.  The numeric fields arrive
    as decimal strings and are read with [int(...)]; here they are already
    numbers.  [tx.get('input')] is [None] for a record without input data. *)
Record tx : Type := {
  tx_hash : string;
  tx_timeStamp : Z;
  tx_from : string;
  tx_to : string;
  tx_value : Z;
  tx_input : option string
}.

(** The two module-level dictionaries. *)
Record store : Type := {
  subs : list (string * list string);
  seen : gmap string (option string)      (* [Some None] is a stored [null] *)
}.

Inductive log_line : Type :=
| InitialSync (addr last_tx : string)
| AlertSent (addr tx_hash : string)
| FetchError (addr : string) (e : exn)
| UpdateError (e : exn).

Inductive event : Type :=
| SendTelegram (chat_id text : string)                  (* POST sendMessage *)
| SaveSubs (snapshot : list (string * list string))     (* rewrite subscriptions.json *)
| SaveSeen (snapshot : gmap string (option string))     (* rewrite seen_tx.json *)
| Stdout (line : log_line).

(** A computation reads and writes the store, appends to the trace and
    either returns or raises. *)
Definition M (A : Type) : Type := store → result A * store * list event.

Definition ret {A} (a : A) : M A := fun st => (Ret a, st, []).

Definition bind {A B} (c : M A) (k : A → M B) : M B :=
  fun st =>
    match c st with
    | (Ret a, st1, t1) =>
        match k a st1 with
        | (r, st2, t2) => (r, st2, t1 ++ t2)
        end
    | (Raise e, st1, t1) => (Raise e, st1, t1)
    end.

Notation "'do' x <- c ; k" := (bind c (fun x => k))
  (at level 10, x name, c at level 100, k at level 200).
Notation "c ;; k" := (bind c (fun _ => k))
  (at level 100, k at level 200, right associativity).

Definition raise {A} (e : exn) : M A := fun st => (Raise e, st, []).
Definition lift {A} (r : result A) : M A := fun st => (r, st, []).
Definition emit (e : event) : M unit := fun st => (Ret tt, st, [e]).
Definition get_store : M store := fun st => (Ret st, st, []).
Definition put_subs (d : list (string * list string)) : M unit :=
  fun st => (Ret tt, {| subs := d; seen := seen st |}, []).
Definition put_seen (m : gmap string (option string)) : M unit :=
  fun st => (Ret tt, {| subs := subs st; seen := m |}, []).

(** [for x in l: body(x)] *)
Fixpoint for_each {A} (l : list A) (body : A → M unit) : M unit :=
  match l with
  | [] => ret tt
  | x :: l' => body x ;; for_each l' body
  end.

(** [a.strip().lower()] *)
Definition norm_addr (a : string) : string := PyStr.lower (PyStr.strip a).

(** [json.dump(subs, f)] and [json.dump(seen, f)] *)
Definition save_subs : M unit := do st <- get_store; emit (SaveSubs (subs st)).
Definition save_seen : M unit := do st <- get_store; emit (SaveSeen (seen st)).

(** [lst.remove(a)]: drops the first occurrence. *)
Fixpoint list_remove (a : string) (l : list string) : list string :=
  match l with
  | [] => []
  | x :: l' => if decide (a = x) then l' else x :: list_remove a l'
  end.

(** [seen.get(addr)]: a missing key and a stored [null] both read as [None]. *)
Definition seen_get (addr : string) (m : gmap string (option string)) : option string :=
  match m !! addr with
  | Some v => v
  | None => None
  end.

(** [seen.setdefault(a, None)] *)
Definition seen_setdefault (a : string) (m : gmap string (option string))
  : gmap string (option string) :=
  match m !! a with
  | Some _ => m
  | None => <[a := None]> m
  end.


(** [l[-n:]] for a positive [n]: the last [n] items, or all of [l] when it
    is shorter. *)
Definition last_n {A} (n : nat) (l : list A) : list A :=
  skipn (length l - n) l.

(** [x or y] *)
Definition py_or (x y : json) : json := if truthy x then x else y.

(** ** The remote services *)

(** What [requests.get] on the chain-data endpoint produces: an exception
    (also from [raise_for_status] and from a body that is not JSON), or the
    decoded body with its ['status'] and, when it is there, ['result']. *)
Inductive txlist_reply : Type :=
| TxlistFailure
| TxlistBody (status : option string) (result : option (list tx)).

Inductive balance_reply : Type :=
| BalanceFailure
| BalanceBody (status : option string) (result : option Z).

(** What [requests.get] on the market-data endpoint produces: an exception,
    or a status code with the decoded body ([None] for an empty or
    undecodable text). *)
Inductive trades_reply : Type :=
| TradesFailure
| TradesBody (status_code : Z) (body : option json).

(** The answers of the outside world during one step of a loop.  The
    market-data service is asked once for every transaction that is about
    to be notified. *)
Record net : Type := {
  txlist : string → txlist_reply;
  balance : string → balance_reply;
  trades : string → tx → trades_reply
}.

Definition polygonscan_txs_for_address (r : txlist_reply) : result (list tx) :=
  match r with
  | TxlistFailure => Raise RequestError
  | TxlistBody status res =>
      match res with
      | Some l => if bool_decide (status = Some "1") then Ret l else Ret []
      | None => Ret []
      end
  end.

Definition polymarket_get_recent_trades_for_wallet (r : trades_reply) : json :=
  match r with
  | TradesFailure => JArr []
  | TradesBody code body =>
      if negb (code =? 200)%Z then JArr []
      else match body with Some j => j | None => JArr [] end
  end.

(** [t.get('txHash') or t.get('transactionHash') or t.get('transaction_hash')] *)
Definition trade_txhash (t : json) : result json :=
  match json_get "txHash" t with
  | Raise e => Raise e
  | Ret a =>
      if truthy a then Ret a
      else match json_get "transactionHash" t with
           | Raise e => Raise e
           | Ret b => if truthy b then Ret b else json_get "transaction_hash" t
           end
  end.

(** The body of [for t in trades] in [match_tx_with_polymarket_trade]. *)
Fixpoint find_trade (tx_hash : string) (ts : list json) : result (option json) :=
  match ts with
  | [] => Ret None
  | t :: ts' =>
      if negb (truthy t) then find_trade tx_hash ts'
      else
        match trade_txhash t with
        | Raise e => Raise e
        | Ret txh =>
            if truthy txh then
              match txh with
              | JStr h =>
                  if bool_decide (PyStr.lower h = PyStr.lower tx_hash) then Ret (Some t)
                  else find_trade tx_hash ts'
              | _ => Raise AttributeError      (* no [lower] method *)
              end
            else find_trade tx_hash ts'
        end
  end.

Definition match_tx_with_polymarket_trade (r : trades_reply) (tx_hash : string)
  : result (option json) :=
  match json_iter (polymarket_get_recent_trades_for_wallet r) with
  | Raise e => Raise e
  | Ret ts => find_trade tx_hash ts
  end.

Definition polygonscan_link (h : string) : string :=
  "https://polygonscan.com/tx/" +:+ h.

(** The two characters that a doubled backslash followed by n leaves in the
    text of a Python literal. *)
Definition bsn : string := "\n".

Section Bot.

(** Python's [str()] of a decoded JSON value (decimal integers, the float
    and container reprs). *)
Variable py_str : json → string.

(** [datetime.utcfromtimestamp(t).strftime('%Y-%m-%d %H:%M:%S UTC')];
    [utcfromtimestamp] raises when [t] is outside the calendar. *)
Variable strftime_utc : Z → result string.

(** [wei / (10**18)], as an f-string prints it; the division raises when
    the quotient is too large for a float. *)
Variable matic_str : Z → result string.

(** The balance in MATIC (a float, carried by the text that prints it), or
    [None] when the answer carries none. *)
Definition polygonscan_balance (r : balance_reply) : result (option string) :=
  match r with
  | BalanceFailure => Raise RequestError
  | BalanceBody status res =>
      match res with
      | Some wei =>
          if bool_decide (status = Some "1") then
            match matic_str wei with
            | Ret bal => Ret (Some bal)
            | Raise e => Raise e
            end
          else Ret None
      | None => Ret None
      end
  end.

Definition send_telegram (chat_id : string) (text : string) : M unit :=
  emit (SendTelegram chat_id text).

Definition add_subscription (chat_id : json) (address : string) : M bool :=
  let cid := py_str chat_id in
  let a := norm_addr address in
  do st <- get_store;
  let lst := default [] (PyDict.get cid (subs st)) in
  if bool_decide (a ∈ lst) then ret false
  else
    let lst := lst ++ [a] in
    put_subs (PyDict.set cid lst (subs st)) ;;
    save_subs ;;
    (do st <- get_store; put_seen (seen_setdefault a (seen st))) ;;
    save_seen ;;
    ret true.

Definition remove_subscription (chat_id : json) (address : string) : M bool :=
  let cid := py_str chat_id in
  let a := norm_addr address in
  do st <- get_store;
  let lst := default [] (PyDict.get cid (subs st)) in
  if bool_decide (a ∈ lst) then
    let lst := list_remove a lst in
    put_subs (PyDict.set cid lst (subs st)) ;;
    save_subs ;;
    ret true
  else ret false.

(** One line of the transaction list in [fmt_wallet_info]: the body of
    [for tx in txs[-5:][::-1]], which is outside the [try] blocks. *)
Definition fmt_wallet_tx_line (t : tx) : result string :=
  match strftime_utc (tx_timeStamp t) with
  | Raise e => Raise e
  | Ret ts =>
      match matic_str (tx_value t) with
      | Raise e => Raise e
      | Ret val =>
          Ret ("- " +:+ ts +:+ " | from `" +:+ tx_from t +:+
               "` → `" +:+ tx_to t +:+ "` | " +:+ val +:+
               " MATIC | [tx](" +:+ polygonscan_link (tx_hash t) +:+ ")")
      end
  end.

Fixpoint fmt_wallet_tx_lines (l : list tx) : result (list string) :=
  match l with
  | [] => Ret []
  | t :: l' =>
      match fmt_wallet_tx_line t with
      | Raise e => Raise e
      | Ret line =>
          match fmt_wallet_tx_lines l' with
          | Raise e => Raise e
          | Ret lines => Ret (line :: lines)
          end
      end
  end.

Definition fmt_wallet_info (n : net) (address : string) : result string :=
  let addr := norm_addr address in
  let bal := match polygonscan_balance (balance n addr) with
             | Ret b => b
             | Raise _ => None
             end in
  let txs := match polygonscan_txs_for_address (txlist n addr) with
             | Ret l => l
             | Raise _ => []
             end in
  let msg := ["*Wallet:* `" +:+ addr +:+ "`"] in
  let msg := match bal with
             | Some b => msg ++ ["*Balance (MATIC):* " +:+ b]
             | None => msg
             end in
  let msg := msg ++ ["*Recent transactions:*"] in
  let closing := [PyStr.nl +:+
      "_Send /follow <address> to subscribe to alerts for this address._"] in
  match txs with
  | [] =>
      Ret (PyStr.join PyStr.nl
             (msg ++ ["_No recent transactions found or API returned empty._"] ++ closing))
  | _ =>
      match fmt_wallet_tx_lines (rev (last_n 5 txs)) with
      | Raise e => Raise e
      | Ret lines => Ret (PyStr.join PyStr.nl (msg ++ lines ++ closing))
      end
  end.

(** The trade format and the plain format of a notification; [ts] and
    [value] are the time stamp and the value as they print. *)
Definition trade_message (address ts : string) (t : tx)
    (title outcome side price size : json) : string :=
  "*Polymarket Trade by* `" +:+ address +:+ "`" +:+ bsn +:+
  "*Market:* " +:+ py_str title +:+ bsn +:+
  "*Outcome:* " +:+ py_str outcome +:+ bsn +:+
  "*Side:* " +:+ py_str side +:+ " | *Price:* " +:+ py_str price +:+
  " | *Size:* " +:+ py_str size +:+ bsn +:+
  "*Time:* " +:+ ts +:+ bsn +:+
  "*Tx:* " +:+ polygonscan_link (tx_hash t) +:+ bsn.

Definition plain_message (address ts value : string) (t : tx) (input_data : string)
  : string :=
  "*New transaction by* `" +:+ address +:+ "`" +:+ bsn +:+
  "*Time:* " +:+ ts +:+ bsn +:+
  "*From:* `" +:+ tx_from t +:+ "`" +:+ bsn +:+
  "*To:* `" +:+ tx_to t +:+ "`" +:+ bsn +:+
  "*Value (MATIC):* " +:+ value +:+ bsn +:+
  "*Tx:* " +:+ polygonscan_link (tx_hash t) +:+ bsn +:+ bsn +:+
  "_Raw input:_ `" +:+ PyStr.take 200 input_data +:+ "`".

(** The time stamp and the value are computed first, outside the [try]
    that guards the trade lookup: when either raises, the exception leaves
    the function before the lookup is made. *)
Definition fmt_tx_message_for_subscribers (r : trades_reply) (address : string) (t : tx)
  : result string :=
  match strftime_utc (tx_timeStamp t) with
  | Raise e => Raise e
  | Ret ts =>
      match matic_str (tx_value t) with
      | Raise e => Raise e
      | Ret value =>
          let trade := match match_tx_with_polymarket_trade r (tx_hash t) with
                       | Ret (Some tr) => tr
                       | Ret None => JNull
                       | Raise _ => JNull
                       end in
          if truthy trade then
            match trade with
            | JObj o =>
                let get k := default JNull (PyDict.get k o) in
                let side := get "side" in
                let price := get "price" in
                let size := get "size" in
                let title := py_or (get "title") (py_or (get "name") (get "market")) in
                let outcome := get "outcome" in
                Ret (trade_message address ts t title outcome side price size)
            | _ => Raise AttributeError                 (* no [get] method *)
            end
          else
            match tx_input t with
            | Some input_data => Ret (plain_message address ts value t input_data)
            | None => Raise TypeError                   (* [input_data[:200]] *)
            end
      end
  end.

(** *** The command loop *)

Definition help_text : string :=
  "Usage:" +:+ PyStr.nl +:+
  "/follow <address> - follow an address and receive alerts" +:+ PyStr.nl +:+
  "/unfollow <address> - stop following" +:+ PyStr.nl +:+
  "/list - list addresses you follow" +:+ PyStr.nl +:+
  "/info <address> - get wallet details now" +:+ PyStr.nl +:+
  "Or simply paste a Polygon wallet address to get details and follow prompt.".

Definition unknown_command_text : string :=
  "Unknown command. Send /help for usage.".

Definition not_a_command_text : string :=
  "Send a Polygon wallet address (0x...) or /help for commands.".

(** The branch of [process_update] for a text that starts with a slash. *)
Definition process_command (n : net) (chat_id : json) (text : string) : M unit :=
  let parts := PyStr.split_maxsplit1 text in
  match parts with
  | [] => raise IndexError                       (* [parts[0]] *)
  | p0 :: rest =>
      let cmd := PyStr.lower p0 in
      let arg := match rest with a :: _ => Some a | [] => None end in
      let has_arg := match arg with
                     | Some a => negb (PyStr.is_empty a)
                     | None => false
                     end in
      let a := default "" arg in
      if bool_decide (cmd = "/help") then
        send_telegram (py_str chat_id) help_text
      else if bool_decide (cmd = "/follow") && has_arg then
        do added <- add_subscription chat_id a;
        if added : bool then
          send_telegram (py_str chat_id)
            ("✅ Now following `" +:+ norm_addr a +:+ "` for alerts.")
        else
          send_telegram (py_str chat_id)
            ("ℹ️ `" +:+ norm_addr a +:+ "` was already in your list.")
      else if bool_decide (cmd = "/unfollow") && has_arg then
        do removed <- remove_subscription chat_id a;
        if removed : bool then
          send_telegram (py_str chat_id) ("🗑️ Unfollowed `" +:+ norm_addr a +:+ "`")
        else
          send_telegram (py_str chat_id)
            ("⚠️ `" +:+ norm_addr a +:+ "` not found in your subscriptions.")
      else if bool_decide (cmd = "/list") then
        do st <- get_store;
        match default [] (PyDict.get (py_str chat_id) (subs st)) with
        | [] => send_telegram (py_str chat_id) "You are not following any addresses."
        | lst =>
            send_telegram (py_str chat_id)
              ("*Your subscriptions:*" +:+ PyStr.nl +:+
               PyStr.join PyStr.nl (map (fun x => "- `" +:+ x +:+ "`") lst))
        end
      else if bool_decide (cmd = "/info") && has_arg then
        do info <- lift (fmt_wallet_info n a);
        send_telegram (py_str chat_id) info
      else
        send_telegram (py_str chat_id) unknown_command_text
  end.

(** [u] is the decoded update object; the listener has already read
    [u['update_id']] from it. *)
Definition process_update (n : net) (u : list (string * json)) : M unit :=
  match PyDict.get "message" u with
  | None => ret tt
  | Some m =>
      do chat <- lift (json_get_default "chat" (JObj []) m);
      do chat_id <- lift (json_get "id" chat);
      do text <- lift (json_get_default "text" (JStr "") m);
      if negb (truthy text) then ret tt
      else
        match text with
        | JStr s =>
            let text := PyStr.strip s in
            if PyStr.startswith "/" text then process_command n chat_id text
            else
              let txt := PyStr.strip text in
              if PyStr.startswith "0x" txt && (10 <=? PyStr.len txt)%nat then
                do info <- lift (fmt_wallet_info n txt);
                send_telegram (py_str chat_id) info ;;
                send_telegram (py_str chat_id)
                  ("To receive ongoing alerts for this address, reply with `/follow "
                   +:+ norm_addr txt +:+ "`")
              else send_telegram (py_str chat_id) not_a_command_text
        | _ => raise AttributeError               (* no [strip] method *)
        end
  end.

(** [try: process_update(u) except Exception as e: print(...)] *)
Definition process_update_guarded (n : net) (u : list (string * json)) : M unit :=
  fun st =>
    match process_update n u st with
    | (Ret _, st', t) => (Ret tt, st', t)
    | (Raise e, st', t) => (Ret tt, st', t ++ [Stdout (UpdateError e)])
    end.

(** *** The notification loop *)

(** The set built at the top of a cycle. *)
Definition all_addresses (d : list (string * list string)) : gset string :=
  foldr (fun kv acc => list_to_set (snd kv) ∪ acc) ∅ d.

(** The scan [for tx in txs] that looks for the watermark: the flag and the
    list it leaves behind. *)
Definition scan_step (last_seen : string) (acc : bool * list tx) (t : tx)
  : bool * list tx :=
  let '(seen_flag, new_list) := acc in
  if bool_decide (tx_hash t = last_seen) then (true, new_list)
  else if seen_flag then (seen_flag, new_list ++ [t])
  else (seen_flag, new_list).

Definition scan (last_seen : string) (txs : list tx) : bool * list tx :=
  fold_left (scan_step last_seen) txs (false, []).

Definition select_new (last_seen : string) (txs : list tx) : list tx :=
  let '(seen_flag, new_list) := scan last_seen txs in
  if negb seen_flag then last_n 2 txs else new_list.

(** The fan-out [for chat_id, lst in subs.items()]. *)
Definition notify_subscribers (addr msg : string) : M unit :=
  do st <- get_store;
  for_each (subs st) (fun kv =>
    if bool_decide (addr ∈ snd kv) then send_telegram (fst kv) msg else ret tt).

(** The body of [for tx in new_list]. *)
Definition dispatch (n : net) (addr : string) (t : tx) : M unit :=
  do msg <- lift (fmt_tx_message_for_subscribers (trades n addr t) addr t);
  notify_subscribers addr msg ;;
  emit (Stdout (AlertSent addr (tx_hash t))) ;;
  (do st <- get_store; put_seen (<[addr := Some (tx_hash t)]> (seen st))) ;;
  save_seen.

(** The body of [for addr in list(all_addresses)]. *)
Definition poll_address (n : net) (addr : string) : M unit :=
  match polygonscan_txs_for_address (txlist n addr) with
  | Raise e => emit (Stdout (FetchError addr e))
  | Ret txs =>
      match txs with
      | [] => ret tt
      | _ =>
          do st <- get_store;
          match seen_get addr (seen st) with
          | None =>
              match last txs with
              | None => raise IndexError          (* [txs[-1]] *)
              | Some newest =>
                  put_seen (<[addr := Some (tx_hash newest)]> (seen st)) ;;
                  save_seen ;;
                  emit (Stdout (InitialSync addr (tx_hash newest)))
              end
          | Some last_seen =>
              for_each (select_new last_seen txs) (dispatch n addr)
          end
      end
  end.

(** One turn of [while True], up to the sleep. *)
Definition poll_cycle (n : net) : M unit :=
  do st <- get_store;
  for_each (elements (all_addresses (subs st))) (poll_address n).

(** The first turns of [poll_subscriptions], one [net] for each. *)
Fixpoint poll_subscriptions (ns : list net) : M unit :=
  match ns with
  | [] => ret tt
  | n :: ns' => poll_cycle n ;; poll_subscriptions ns'
  end.

(** *** Vocabulary of the statements *)

(** [subs.get(cid, [])] *)
Definition watch_list (cid : string) (st : store) : list string :=
  default [] (PyDict.get cid (subs st)).

(** The subscribers that watch [addr], in the order of [subs.items()]. *)
Definition subscribers (addr : string) (d : list (string * list string)) : list string :=
  map fst (filter (fun kv => addr ∈ snd kv) d).

(** The formatter returns a text for the transaction [t] of [addr]. *)
Definition renders (n : net) (addr : string) (t : tx) : Prop :=
  ∃ msg, fmt_tx_message_for_subscribers (trades n addr t) addr t = Ret msg.

(** The text that [dispatch] sends for a transaction that [renders]. *)
Definition message_text (n : net) (addr : string) (t : tx) : string :=
  match fmt_tx_message_for_subscribers (trades n addr t) addr t with
  | Ret s => s
  | Raise _ => ""
  end.

(** The entries of [new] that the loop [for tx in new_list] gets through:
    those in front of the first one on which the formatter raises. *)
Fixpoint dispatched (n : net) (addr : string) (new : list tx) : list tx :=
  match new with
  | [] => []
  | t :: new' =>
      match fmt_tx_message_for_subscribers (trades n addr t) addr t with
      | Ret _ => t :: dispatched n addr new'
      | Raise _ => []
      end
  end.

(** How that loop ends: it returns, or the exception of the formatter
    leaves it. *)
Fixpoint dispatch_outcome (n : net) (addr : string) (new : list tx) : result unit :=
  match new with
  | [] => Ret tt
  | t :: new' =>
      match fmt_tx_message_for_subscribers (trades n addr t) addr t with
      | Ret _ => dispatch_outcome n addr new'
      | Raise e => Raise e
      end
  end.

(** What one notification leaves in the trace when it is dispatched from a
    store [st]: the message to every subscriber of [addr], the log line, and
    the watermark file rewritten with the transaction's hash. *)
Definition dispatch_round (n : net) (st : store) (addr : string) (t : tx) : list event :=
  map (fun cid => SendTelegram cid (message_text n addr t)) (subscribers addr (subs st))
  ++ [Stdout (AlertSent addr (tx_hash t));
      SaveSeen (<[addr := Some (tx_hash t)]> (seen st))].

Definition result_of {A} (x : result A * store * list event) : result A := x.1.1.
Definition store_of {A} (x : result A * store * list event) : store := x.1.2.
Definition trace_of {A} (x : result A * store * list event) : list event := x.2.

(** The messages in a trace. *)
Definition sent (t : list event) : list (string * string) :=
  omap (fun e => match e with SendTelegram c m => Some (c, m) | _ => None end) t.

(** The watermarks of [addr] that a trace writes to the watermark file. *)
Definition watermark_writes (addr : string) (t : list event) : list (option string) :=
  omap (fun e => match e with
                 | SaveSeen m => Some (seen_get addr m)
                 | _ => None
                 end) t.

(** [a] comes before [b] in the canonical order [chain]. *)
Definition earlier (chain : list string) (a b : string) : Prop :=
  ∃ i j, chain !! i = Some a ∧ chain !! j = Some b ∧ i < j.

(** Every watched list is duplicate free: the subscription store holds a
    set of addresses for each subscriber. *)
Definition subs_wf (st : store) : Prop :=
  ∀ cid, NoDup (watch_list cid st).

(** The store once the watermark of [addr] is [h], and once it has moved
    along the notified transactions [new]. *)
Definition set_watermark (addr h : string) (st : store) : store :=
  {| subs := subs st; seen := <[addr := Some h]> (seen st) |}.

Definition advance_watermark (addr : string) (new : list tx) (st : store) : store :=
  match last new with
  | Some t => set_watermark addr (tx_hash t) st
  | None => st
  end.

(** The cycle that starts from [st] gets to the iteration for [addr], which
    starts from [st_a]: the addresses of the cycle are [before], then
    [addr], then [after], and the iterations for [before] have returned,
    leaving the store [st_a] and the trace [t1].  (An exception in one of
    them would have ended the loop there.) *)
Definition visits (n : net) (st : store) (addr : string) (st_a : store) : Prop :=
  ∃ before after t1,
    elements (all_addresses (subs st)) = before ++ addr :: after
    ∧ (addr ∉ before) ∧ (addr ∉ after)
    ∧ for_each before (poll_address n) st = (Ret tt, st_a, t1).

(** The records that the market-data lookup hands to the matcher; none when
    the lookup fails. *)
Definition lookup_records (r : trades_reply) : list json :=
  match json_iter (polymarket_get_recent_trades_for_wallet r) with
  | Ret l => l
  | Raise _ => []
  end.

(** The trade record [tr] carries the transaction hash [h] (up to case). *)
Definition record_matches (h : string) (tr : json) : Prop :=
  truthy tr = true
  ∧ ∃ txh, trade_txhash tr = Ret (JStr txh) ∧ txh ≠ ""
           ∧ PyStr.lower txh = PyStr.lower h.

(** The market-data request raised, or came back with a status other than
    200. *)
Definition lookup_failed (r : trades_reply) : Prop :=
  match r with
  | TradesFailure => True
  | TradesBody code _ => code ≠ 200%Z
  end.

(** ** Sample data

    Subscriber 42 follows the address 0xABC; the chain knows four
    transactions of it, in this order. *)

Definition tx1 : tx :=
  {| tx_hash := "0xh1"; tx_timeStamp := 1700000001; tx_from := "0xabc";
     tx_to := "0xdef"; tx_value := 1000000000000000000; tx_input := Some "0x" |}.
Definition tx2 : tx :=
  {| tx_hash := "0xh2"; tx_timeStamp := 1700000002; tx_from := "0xabc";
     tx_to := "0xdef"; tx_value := 0; tx_input := Some "0xa9059cbb" |}.
Definition tx3 : tx :=
  {| tx_hash := "0xh3"; tx_timeStamp := 1700000003; tx_from := "0xdef";
     tx_to := "0xabc"; tx_value := 5; tx_input := Some "0x" |}.
Definition tx4 : tx :=
  {| tx_hash := "0xh4"; tx_timeStamp := 1700000004; tx_from := "0xabc";
     tx_to := "0xdef"; tx_value := 7; tx_input := Some "0x" |}.

(** A record whose time stamp lies far outside the calendar. *)
Definition tx_far : tx :=
  {| tx_hash := "0xh5"; tx_timeStamp := 1000000000000000000; tx_from := "0xabc";
     tx_to := "0xdef"; tx_value := 1; tx_input := Some "0x" |}.

Definition canonical_chain : list string := ["0xh1"; "0xh2"; "0xh3"; "0xh4"].

(** The services answer with the given transaction list for every address;
    the balance and trade lookups fail. *)
Definition net_with (txs : list tx) : net :=
  {| txlist := fun _ => TxlistBody (Some "1") (Some txs);
     balance := fun _ => BalanceFailure;
     trades := fun _ _ => TradesFailure |}.

(** The store right after [/follow 0xABC] by chat 42, and the same store
    with a watermark. *)
Definition store_followed : store :=
  {| subs := [("42", ["0xabc"])]; seen := {["0xabc" := None]} |}.

Definition store_at (h : string) : store :=
  {| subs := [("42", ["0xabc"])]; seen := {["0xabc" := Some h]} |}.

(** Renderings that are enough to run the samples: scalars as Python
    prints them, seconds and wei as plain decimals.  The seconds must lie in
    the years 1 to 9999, and the quotient below the largest float. *)
Definition scalar_str (v : json) : string :=
  match v with
  | JNull => "None"
  | JBool true => "True"
  | JBool false => "False"
  | JInt n => pretty n
  | JFloat r => r
  | JStr s => s
  | _ => ""
  end.

Definition seconds_str (t : Z) : result string :=
  if ((-62135596800 <=? t) && (t <=? 253402300799))%Z then Ret (pretty t)
  else Raise ValueError.

Definition wei_str (w : Z) : result string :=
  if (Z.abs w <? 10 ^ 326)%Z then Ret (pretty w +:+ "e-18")
  else Raise OverflowError.

(** An update that carries [text] from chat 42. *)
Definition update_with (text : string) : list (string * json) :=
  [("update_id", JInt 1);
   ("message", JObj [("chat", JObj [("id", JInt 42)]); ("text", JStr text)])].

(** A trade record of the market-data service for the transaction [h]. *)
Definition trade_for (h : string) : json :=
  JObj [("transactionHash", JStr h); ("side", JStr "BUY"); ("price", JInt 1);
        ("size", JInt 10); ("title", JStr "Will it rain?"); ("outcome", JStr "Yes")].

(** *** Further vocabulary *)

(** Every listed address is in normal form. *)
Definition subs_normalized (st : store) : Prop :=
  ∀ cid a, a ∈ watch_list cid st → norm_addr a = a.

(** A string that does not start with whitespace. *)
Definition head_ok (s : string) : Prop :=
  match s with
  | EmptyString => True
  | String c _ => PyStr.is_space c = false
  end.

(** The matcher goes past the record [tr] when it looks for the hash [h]:
    the record is falsy, or it is a dictionary whose hash entry is falsy or a
    string other than [h] (up to case). *)
Definition passed_over (h : string) (tr : json) : Prop :=
  truthy tr = false
  ∨ ∃ txh, trade_txhash tr = Ret txh
           ∧ (truthy txh = false
              ∨ ∃ s, txh = JStr s ∧ PyStr.lower s ≠ PyStr.lower h).

(** The matcher raises on the record [tr]: it is truthy and has no [get]
    method, or its hash entry is truthy and has no [lower] method. *)
Definition breaks_matcher (tr : json) : Prop :=
  truthy tr = true
  ∧ ((∃ e, trade_txhash tr = Raise e)
     ∨ ∃ txh, trade_txhash tr = Ret txh ∧ truthy txh = true ∧ ∀ s, txh ≠ JStr s).

(** The chat identifier that [process_update] reads from an update. *)
Definition update_chat_id (u : list (string * json)) : json :=
  match PyDict.get "message" u with
  | Some (JObj m) =>
      match default (JObj []) (PyDict.get "chat" m) with
      | JObj chat => default JNull (PyDict.get "id" chat)
      | _ => JNull
      end
  | _ => JNull
  end.

(** The chain-data service fails for every address. *)
Definition net_down : net :=
  {| txlist := fun _ => TxlistFailure;
     balance := fun _ => BalanceFailure;
     trades := fun _ _ => TradesFailure |}.

(** The service of [net_with], with a market-data answer. *)
Definition net_with_trades (txs : list tx) (r : trades_reply) : net :=
  {| txlist := fun _ => TxlistBody (Some "1") (Some txs);
     balance := fun _ => BalanceFailure;
     trades := fun _ _ => r |}.

(** Two subscribers; the second one watches two addresses. *)
Definition store_two : store :=
  {| subs := [("42", ["0xabc"]); ("77", ["0xabc"; "0xdef"])];
     seen := {["0xabc" := Some "0xh1"]} |}.

(** ** Facts about the containers *)

Lemma dict_get_set_eq {V} k (v : V) d : PyDict.get k (PyDict.set k v d) = Some v.
Proof.
  induction d as [|[k' v'] d IH]; simpl.
  - by rewrite decide_True.
  - destruct (decide (k = k')) as [->|Hne]; simpl.
    + by rewrite decide_True.
    + by rewrite decide_False.
Qed.

Lemma dict_get_set_ne {V} k k' (v : V) d :
  k ≠ k' → PyDict.get k' (PyDict.set k v d) = PyDict.get k' d.
Proof.
  intros Hne. induction d as [|[k0 v0] d IH]; simpl.
  - rewrite decide_False; [done | congruence].
  - destruct (decide (k = k0)) as [->|Hne0]; simpl.
    + rewrite !decide_False; [done | congruence | congruence].
    + destruct (decide (k' = k0)); [done | apply IH].
Qed.

Lemma list_remove_subseteq a l x : x ∈ list_remove a l → x ∈ l.
Proof.
  induction l as [|y l IH]; simpl; [done |].
  destruct (decide (a = y)) as [->|Hne]; intros Hin.
  - by right.
  - apply elem_of_cons in Hin as [->|Hin]; [left | right; by apply IH].
Qed.

Lemma list_remove_NoDup a l : NoDup l → NoDup (list_remove a l) ∧ a ∉ list_remove a l.
Proof.
  induction 1 as [|x l Hx Hl IH]; simpl.
  - split; [constructor | apply not_elem_of_nil].
  - destruct (decide (a = x)) as [->|Hne]; [done |].
    destruct IH as [IH1 IH2]. split.
    + constructor; [|done]. intros Hin. apply Hx. by apply (list_remove_subseteq a).
    + apply not_elem_of_cons. by split.
Qed.

Lemma filter_eq_absent (a : string) l : a ∉ l → filter (fun x => x = a) l = [].
Proof.
  induction l as [|x l IH]; intros Hn; [done |].
  apply not_elem_of_cons in Hn as [Hne Hn].
  rewrite filter_cons_False by congruence. by apply IH.
Qed.

Lemma count_one_snoc (a : string) l :
  a ∉ l → length (filter (fun x => x = a) (l ++ [a])) = 1.
Proof.
  intros Hn. rewrite filter_app, filter_eq_absent by done.
  by rewrite filter_cons_True.
Qed.

Lemma count_one_NoDup (a : string) l :
  NoDup l → a ∈ l → length (filter (fun x => x = a) l) = 1.
Proof.
  induction 1 as [|x l Hx Hl IH]; intros Hin; [by apply elem_of_nil in Hin |].
  destruct (decide (x = a)) as [->|Hne].
  - rewrite filter_cons_True by done. by rewrite filter_eq_absent.
  - rewrite filter_cons_False by done. apply IH.
    apply elem_of_cons in Hin as [->|Hin]; done.
Qed.

(** ** The subscription store *)

Ltac run_m :=
  unfold bind, ret, raise, lift, emit, get_store, put_subs, put_seen,
    save_subs, save_seen, send_telegram; simpl.

Lemma add_subscription_present chat_id address st :
  norm_addr address ∈ watch_list (py_str chat_id) st →
  add_subscription chat_id address st = (Ret false, st, []).
Proof.
  intros Hin. unfold add_subscription. run_m.
  fold (watch_list (py_str chat_id) st). by rewrite bool_decide_true.
Qed.

Lemma add_subscription_fresh chat_id address st :
  norm_addr address ∉ watch_list (py_str chat_id) st →
  add_subscription chat_id address st =
    (Ret true,
     {| subs := PyDict.set (py_str chat_id)
                  (watch_list (py_str chat_id) st ++ [norm_addr address]) (subs st);
        seen := seen_setdefault (norm_addr address) (seen st) |},
     [SaveSubs (PyDict.set (py_str chat_id)
                  (watch_list (py_str chat_id) st ++ [norm_addr address]) (subs st));
      SaveSeen (seen_setdefault (norm_addr address) (seen st))]).
Proof.
  intros Hin. unfold add_subscription. run_m.
  fold (watch_list (py_str chat_id) st). by rewrite bool_decide_false.
Qed.

Lemma remove_subscription_present chat_id address st :
  norm_addr address ∈ watch_list (py_str chat_id) st →
  remove_subscription chat_id address st =
    (Ret true,
     {| subs := PyDict.set (py_str chat_id)
                  (list_remove (norm_addr address) (watch_list (py_str chat_id) st))
                  (subs st);
        seen := seen st |},
     [SaveSubs (PyDict.set (py_str chat_id)
                  (list_remove (norm_addr address) (watch_list (py_str chat_id) st))
                  (subs st))]).
Proof.
  intros Hin. unfold remove_subscription. run_m.
  fold (watch_list (py_str chat_id) st). by rewrite bool_decide_true.
Qed.

Lemma watch_list_set_eq cid l st m :
  watch_list cid {| subs := PyDict.set cid l (subs st); seen := m |} = l.
Proof. unfold watch_list. simpl. by rewrite dict_get_set_eq. Qed.

Lemma watch_list_set_ne cid cid' l st m :
  cid ≠ cid' →
  watch_list cid' {| subs := PyDict.set cid l (subs st); seen := m |} = watch_list cid' st.
Proof. intros. unfold watch_list. simpl. by rewrite dict_get_set_ne. Qed.

(** The store that starts empty keeps duplicate-free lists under both
    operations. *)
Lemma subs_wf_empty : subs_wf {| subs := []; seen := ∅ |}.
Proof. intros cid. unfold watch_list. simpl. constructor. Qed.

Lemma add_subscription_wf chat_id address st :
  subs_wf st → subs_wf (store_of (add_subscription chat_id address st)).
Proof.
  intros Hwf.
  destruct (decide (norm_addr address ∈ watch_list (py_str chat_id) st)) as [Hin|Hin].
  - by rewrite add_subscription_present.
  - rewrite add_subscription_fresh by done. unfold store_of. simpl.
    intros cid. destruct (decide (py_str chat_id = cid)) as [<-|Hne].
    + rewrite watch_list_set_eq. apply NoDup_app. split_and!; [apply Hwf | | apply NoDup_singleton].
      intros x Hx Hx'. apply list_elem_of_singleton in Hx'. by subst.
    + rewrite watch_list_set_ne by done. apply Hwf.
Qed.

Lemma remove_subscription_wf chat_id address st :
  subs_wf st → subs_wf (store_of (remove_subscription chat_id address st)).
Proof.
  intros Hwf.
  destruct (decide (norm_addr address ∈ watch_list (py_str chat_id) st)) as [Hin|Hin].
  - rewrite remove_subscription_present by done. unfold store_of. simpl.
    intros cid. destruct (decide (py_str chat_id = cid)) as [<-|Hne].
    + rewrite watch_list_set_eq. by apply list_remove_NoDup.
    + rewrite watch_list_set_ne by done. apply Hwf.
  - unfold remove_subscription. run_m. fold (watch_list (py_str chat_id) st).
    by rewrite bool_decide_false.
Qed.

(** C4.  [add_subscription] is idempotent up to [norm_addr]: when two
    address strings have the same normal form, adding the first and then
    the second for one subscriber leaves that normal form exactly once in
    the subscriber's list, and the second call returns [False] without
    touching the store or the files.  The subscriber's list is duplicate
    free to begin with, as every list is that the bot builds from the empty
    store ([subs_wf_empty], [add_subscription_wf], [remove_subscription_wf],
    and [process_update_wf] and [poll_cycle_wf] for the two loops). *)
Theorem add_subscription_idempotent chat_id addr1 addr2 st :
  norm_addr addr1 = norm_addr addr2 →
  NoDup (watch_list (py_str chat_id) st) →
  add_subscription chat_id addr2 (store_of (add_subscription chat_id addr1 st))
    = (Ret false, store_of (add_subscription chat_id addr1 st), [])
  ∧ length (filter (fun x => x = norm_addr addr1)
              (watch_list (py_str chat_id)
                 (store_of (add_subscription chat_id addr1 st)))) = 1.
Proof.
  intros Hnorm Hnd.
  destruct (decide (norm_addr addr1 ∈ watch_list (py_str chat_id) st)) as [Hin|Hin].
  - rewrite (add_subscription_present _ addr1) by done. unfold store_of. simpl. split.
    + apply add_subscription_present. by rewrite <- Hnorm.
    + by apply count_one_NoDup.
  - rewrite (add_subscription_fresh _ addr1) by done. unfold store_of. simpl. split.
    + apply add_subscription_present. rewrite watch_list_set_eq, <- Hnorm.
      apply elem_of_app. right. left.
    + rewrite watch_list_set_eq. by apply count_one_snoc.
Qed.

(** C5.  [remove_subscription] on an address whose normal form is not in
    the subscriber's list returns [False]; the store (every list, and the
    watermarks) is unchanged and nothing is written. *)
Theorem remove_subscription_absent chat_id address st :
  norm_addr address ∉ watch_list (py_str chat_id) st →
  remove_subscription chat_id address st = (Ret false, st, []).
Proof.
  intros Hin. unfold remove_subscription. run_m.
  fold (watch_list (py_str chat_id) st). by rewrite bool_decide_false.
Qed.

(** C9.  [add_subscription] never overwrites a watermark: either the
    watermark store is left as it was, or the normalized address had no key
    and the only change is that key, created with [None]. *)
Theorem add_subscription_keeps_watermark chat_id address st :
  seen (store_of (add_subscription chat_id address st)) = seen st
  ∨ (seen st !! norm_addr address = None
     ∧ seen (store_of (add_subscription chat_id address st))
         = <[norm_addr address := None]> (seen st)).
Proof.
  destruct (decide (norm_addr address ∈ watch_list (py_str chat_id) st)) as [Hin|Hin].
  - left. by rewrite add_subscription_present.
  - rewrite add_subscription_fresh by done. unfold store_of, seen_setdefault. simpl.
    destruct (seen st !! norm_addr address) eqn:E; [by left | by right].
Qed.

(** ** The notification loop *)

Lemma for_each_cons {A} (x : A) (l : list A) (f : A → M unit) st :
  for_each (x :: l) f st =
    match f x st with
    | (Ret _, sx, tx) =>
        (result_of (for_each l f sx), store_of (for_each l f sx),
         tx ++ trace_of (for_each l f sx))
    | (Raise e, sx, tx) => (Raise e, sx, tx)
    end.
Proof.
  simpl. unfold bind. destruct (f x st) as [[[u|e] sx] tx]; [|done].
  by destruct (for_each l f sx) as [[??]?].
Qed.

Lemma for_each_app {A} (l1 l2 : list A) (f : A → M unit) st st1 t1 :
  for_each l1 f st = (Ret tt, st1, t1) →
  for_each (l1 ++ l2) f st =
    (result_of (for_each l2 f st1), store_of (for_each l2 f st1),
     t1 ++ trace_of (for_each l2 f st1)).
Proof.
  revert st t1. induction l1 as [|x l1 IH]; intros st t1.
  - simpl. unfold ret. intros [= <- <-]. by destruct (for_each l2 f st) as [[??]?].
  - rewrite <- app_comm_cons, !for_each_cons.
    destruct (f x st) as [[[u|e] sx] tx]; [|done].
    destruct (for_each l1 f sx) as [[r1 s1] u1] eqn:E1.
    unfold result_of, store_of, trace_of. simpl. intros [= -> <- <-].
    rewrite (IH _ _ E1). unfold result_of, store_of, trace_of. simpl.
    by rewrite app_assoc.
Qed.

(** A loop that returns has returned from the iterations of every prefix. *)
Lemma for_each_app_ret {A} (l1 l2 : list A) (f : A → M unit) st :
  result_of (for_each (l1 ++ l2) f st) = Ret tt →
  ∃ st1 t1, for_each l1 f st = (Ret tt, st1, t1)
            ∧ result_of (for_each l2 f st1) = Ret tt.
Proof.
  revert st. induction l1 as [|x l1 IH]; intros st.
  - simpl. intros Hr. exists st, []. by split.
  - rewrite <- app_comm_cons, !for_each_cons.
    destruct (f x st) as [[[u|e] sx] tx]; [|done].
    unfold result_of at 1. simpl. intros Hr.
    destruct (IH sx Hr) as (st1 & t1 & E1 & Hr2).
    rewrite E1. unfold result_of at 1, store_of, trace_of. simpl.
    by exists st1, (tx ++ t1).
Qed.

(** The matcher only ever returns a record that it could read a hash from,
    hence a dictionary. *)
Lemma trade_txhash_obj t v : trade_txhash t = Ret v → ∃ o, t = JObj o.
Proof. destruct t; try discriminate. eauto. Qed.

Lemma find_trade_obj h ts t :
  find_trade h ts = Ret (Some t) → truthy t = true ∧ ∃ o, t = JObj o.
Proof.
  induction ts as [|x ts IH]; simpl; [done |].
  destruct (truthy x) eqn:Ex; simpl; [|done].
  destruct (trade_txhash x) as [txh|e] eqn:Eh; [|done].
  destruct (truthy txh); [|done].
  destruct txh; try done.
  case_bool_decide; [|done].
  intros [= ->]. split; [done |]. by eapply trade_txhash_obj.
Qed.

(** The formatter returns as soon as the time stamp and the value can be
    rendered and the record has input data. *)
Lemma well_formed_renders n addr t ts value input_data :
  strftime_utc (tx_timeStamp t) = Ret ts →
  matic_str (tx_value t) = Ret value →
  tx_input t = Some input_data →
  renders n addr t.
Proof.
  intros Ets Ev Ei. unfold renders, fmt_tx_message_for_subscribers.
  rewrite Ets, Ev, Ei. unfold match_tx_with_polymarket_trade.
  destruct (json_iter _) as [trs|e]; [|simpl; eauto].
  destruct (find_trade (tx_hash t) trs) as [[tr|]|e] eqn:E; [|simpl; eauto..].
  apply find_trade_obj in E as [-> [o ->]]. eauto.
Qed.

Lemma renders_message_text n addr t :
  renders n addr t →
  fmt_tx_message_for_subscribers (trades n addr t) addr t = Ret (message_text n addr t).
Proof. intros [msg E]. unfold message_text. by rewrite E. Qed.

Lemma notify_subscribers_run addr msg st :
  notify_subscribers addr msg st =
    (Ret tt, st, map (fun cid => SendTelegram cid msg) (subscribers addr (subs st))).
Proof.
  unfold notify_subscribers, subscribers. run_m.
  assert (∀ d, for_each d (fun kv : string * list string =>
              if bool_decide (addr ∈ kv.2) then emit (SendTelegram kv.1 msg)
              else fun st0 => (Ret tt, st0, [])) st
            = (Ret tt, st, map (fun cid => SendTelegram cid msg)
                             (map fst (filter (fun kv => addr ∈ kv.2) d)))) as H.
  { induction d as [|[cid lst] d IH]; [done |].
    simpl. unfold bind. simpl. case_bool_decide.
    - rewrite filter_cons_True by done. simpl. by rewrite IH.
    - rewrite filter_cons_False by done. by rewrite IH. }
  by rewrite H.
Qed.

Lemma dispatch_run n addr t st :
  renders n addr t →
  dispatch n addr t st =
    (Ret tt, set_watermark addr (tx_hash t) st, dispatch_round n st addr t).
Proof.
  intros Hr. unfold dispatch, bind at 1. unfold lift.
  rewrite (renders_message_text _ _ _ Hr).
  unfold bind at 1. rewrite notify_subscribers_run.
  unfold dispatch_round, set_watermark. by run_m.
Qed.

(** An exception of the formatter leaves [dispatch] before anything is
    sent or written. *)
Lemma dispatch_raise n addr t st e :
  fmt_tx_message_for_subscribers (trades n addr t) addr t = Raise e →
  dispatch n addr t st = (Raise e, st, []).
Proof. intros E. unfold dispatch, bind, lift. by rewrite E. Qed.

Lemma dispatch_round_set_watermark n addr h st t :
  dispatch_round n (set_watermark addr h st) addr t = dispatch_round n st addr t.
Proof. unfold dispatch_round, set_watermark. simpl. by rewrite insert_insert_eq. Qed.

Lemma set_watermark_twice addr h1 h2 st :
  set_watermark addr h2 (set_watermark addr h1 st) = set_watermark addr h2 st.
Proof. unfold set_watermark. simpl. by rewrite insert_insert_eq. Qed.

(** The loop over the new transactions runs the rounds of the entries it
    gets through, and ends as [dispatch_outcome] says. *)
Lemma dispatch_all_run n addr new st :
  for_each new (dispatch n addr) st =
    (dispatch_outcome n addr new,
     advance_watermark addr (dispatched n addr new) st,
     flat_map (dispatch_round n st addr) (dispatched n addr new)).
Proof.
  revert st. induction new as [|t new IH]; intros st; [done |].
  rewrite for_each_cons. cbn [dispatched dispatch_outcome].
  destruct (fmt_tx_message_for_subscribers (trades n addr t) addr t) as [msg|e] eqn:E.
  - rewrite dispatch_run by (by exists msg). rewrite IH.
    unfold result_of, store_of, trace_of. simpl. f_equal; [f_equal |].
    + unfold advance_watermark. rewrite last_cons.
      destruct (last (dispatched n addr new)); [apply set_watermark_twice | done].
    + f_equal. apply flat_map_ext. intros. apply dispatch_round_set_watermark.
  - by rewrite (dispatch_raise _ _ _ _ e).
Qed.

Lemma dispatched_all n addr new :
  Forall (renders n addr) new →
  dispatched n addr new = new ∧ dispatch_outcome n addr new = Ret tt.
Proof.
  induction 1 as [|t new [msg E] _ [IH1 IH2]]; [done |].
  simpl. by rewrite E, IH1, IH2.
Qed.

Lemma dispatch_outcome_ret n addr new :
  dispatch_outcome n addr new = Ret tt → dispatched n addr new = new.
Proof.
  induction new as [|t new IH]; [done |]. simpl.
  destruct (fmt_tx_message_for_subscribers _ _ _); [|done].
  intros Hr. by rewrite IH.
Qed.

(** The loop stops at the first entry that the formatter raises on. *)
Lemma dispatched_until n addr done t rest e :
  Forall (renders n addr) done →
  fmt_tx_message_for_subscribers (trades n addr t) addr t = Raise e →
  dispatched n addr (done ++ t :: rest) = done
  ∧ dispatch_outcome n addr (done ++ t :: rest) = Raise e.
Proof.
  intros Hd E. induction Hd as [|u done [msg Eu] _ [IH1 IH2]]; simpl.
  - by rewrite E.
  - by rewrite Eu, IH1, IH2.
Qed.

Lemma dispatched_prefix n addr new : dispatched n addr new `prefix_of` new.
Proof.
  induction new as [|t new IH]; [done |]. simpl.
  destruct (fmt_tx_message_for_subscribers _ _ _).
  - by apply prefix_cons.
  - apply prefix_nil.
Qed.

Lemma elem_of_dispatched n addr new t :
  t ∈ dispatched n addr new → t ∈ new ∧ renders n addr t.
Proof.
  induction new as [|u new IH]; simpl; [by intros ?%elem_of_nil |].
  destruct (fmt_tx_message_for_subscribers (trades n addr u) addr u) as [msg|e] eqn:E;
    [|by intros ?%elem_of_nil].
  intros [->|Hin]%elem_of_cons.
  - split; [left | by exists msg].
  - destruct (IH Hin). split; [by right | done].
Qed.


(** *** The scan for the watermark *)

Lemma scan_flag_set w txs acc :
  fold_left (scan_step w) txs (true, acc)
  = (true, acc ++ filter (fun t => tx_hash t ≠ w) txs).
Proof.
  revert acc. induction txs as [|t txs IH]; intros acc; simpl.
  - by rewrite app_nil_r.
  - case_bool_decide as E.
    + rewrite IH, filter_cons_False; [done | by intros []].
    + rewrite IH, filter_cons_True by done. by rewrite <- app_assoc.
Qed.

Lemma scan_absent w txs acc :
  w ∉ map tx_hash txs → fold_left (scan_step w) txs (false, acc) = (false, acc).
Proof.
  induction txs as [|t txs IH]; intros Hn; [done |].
  simpl in *. apply not_elem_of_cons in Hn as [Hne Hn].
  rewrite bool_decide_false by congruence. by apply IH.
Qed.

Lemma filter_hash_absent w (l : list tx) :
  w ∉ map tx_hash l → filter (fun t => tx_hash t ≠ w) l = l.
Proof.
  induction l as [|t l IH]; intros Hn; [done |].
  simpl in Hn. apply not_elem_of_cons in Hn as [Hne Hn].
  rewrite filter_cons_True by congruence. f_equal. by apply IH.
Qed.

(** The watermark stands once in the list: what follows it is new. *)
Lemma select_new_found w pre wtx post :
  tx_hash wtx = w → w ∉ map tx_hash pre → w ∉ map tx_hash post →
  select_new w (pre ++ wtx :: post) = post.
Proof.
  intros Hw Hpre Hpost. unfold select_new, scan.
  rewrite fold_left_app, scan_absent by done. simpl.
  rewrite bool_decide_true by done.
  rewrite scan_flag_set. simpl. by rewrite filter_hash_absent.
Qed.

(** The watermark is not in the list: the last two entries are taken. *)
Lemma select_new_absent w txs :
  w ∉ map tx_hash txs → select_new w txs = last_n 2 txs.
Proof. intros Hn. unfold select_new, scan. by rewrite scan_absent. Qed.

Lemma last_n_2_snoc2 {A} (init : list A) x y : last_n 2 (init ++ [x; y]) = [x; y].
Proof.
  unfold last_n. rewrite length_app. simpl.
  replace (length init + 2 - 2) with (length init) by lia.
  by rewrite drop_app_length.
Qed.

Lemma NoDup_hashes_split w (pre post : list tx) wtx :
  NoDup (map tx_hash (pre ++ wtx :: post)) → tx_hash wtx = w →
  (w ∉ map tx_hash pre) ∧ (w ∉ map tx_hash post).
Proof.
  rewrite map_app. simpl. intros Hnd <-.
  apply NoDup_app in Hnd as (_ & Hdisj & Hnd).
  apply NoDup_cons in Hnd as [Hpost _]. split; [|done].
  intros Hin. apply (Hdisj _ Hin). left.
Qed.

(** *** One iteration of the loop over the addresses *)

Lemma poll_address_fetch_error n addr st :
  txlist n addr = TxlistFailure →
  poll_address n addr st = (Ret tt, st, [Stdout (FetchError addr RequestError)]).
Proof. intros E. unfold poll_address. by rewrite E. Qed.

Lemma poll_address_empty n addr st :
  polygonscan_txs_for_address (txlist n addr) = Ret [] →
  poll_address n addr st = (Ret tt, st, []).
Proof. intros E. unfold poll_address. by rewrite E. Qed.

Lemma poll_address_initial n addr st txs newest :
  polygonscan_txs_for_address (txlist n addr) = Ret txs →
  last txs = Some newest →
  seen_get addr (seen st) = None →
  poll_address n addr st =
    (Ret tt, set_watermark addr (tx_hash newest) st,
     [SaveSeen (seen (set_watermark addr (tx_hash newest) st));
      Stdout (InitialSync addr (tx_hash newest))]).
Proof.
  intros E Hl Hs. unfold poll_address. rewrite E.
  destruct txs as [|t txs]; [done |].
  run_m. by rewrite Hs, Hl.
Qed.

Lemma poll_address_known n addr st txs w :
  polygonscan_txs_for_address (txlist n addr) = Ret txs →
  txs ≠ [] →
  seen_get addr (seen st) = Some w →
  poll_address n addr st =
    (dispatch_outcome n addr (select_new w txs),
     advance_watermark addr (dispatched n addr (select_new w txs)) st,
     flat_map (dispatch_round n st addr) (dispatched n addr (select_new w txs))).
Proof.
  intros E Hne Hs. unfold poll_address. rewrite E.
  destruct txs as [|t txs]; [done |].
  unfold bind, get_store. rewrite Hs, dispatch_all_run. done.
Qed.

(** When every new transaction renders, all of them are dispatched. *)
Lemma poll_address_known_all n addr st txs w :
  polygonscan_txs_for_address (txlist n addr) = Ret txs →
  txs ≠ [] →
  seen_get addr (seen st) = Some w →
  Forall (renders n addr) (select_new w txs) →
  poll_address n addr st =
    (Ret tt, advance_watermark addr (select_new w txs) st,
     flat_map (dispatch_round n st addr) (select_new w txs)).
Proof.
  intros E Hne Hs Hr. rewrite (poll_address_known _ _ _ _ _ E Hne Hs).
  by destruct (dispatched_all _ _ _ Hr) as [-> ->].
Qed.

Lemma fetch_raises_only_on_failure r e :
  polygonscan_txs_for_address r = Raise e → r = TxlistFailure ∧ e = RequestError.
Proof.
  destruct r as [|status [l|]]; simpl; [by intros [= <-] | | done].
  by case_bool_decide.
Qed.

(** Whether it returns or raises, an iteration leaves the subscriptions
    alone and writes no watermark but that of its own address. *)
Lemma poll_address_frame n a st :
  subs (store_of (poll_address n a st)) = subs st
  ∧ ∀ b, b ≠ a → seen (store_of (poll_address n a st)) !! b = seen st !! b.
Proof.
  destruct (polygonscan_txs_for_address (txlist n a)) as [txs|e] eqn:E.
  - destruct (decide (txs = [])) as [->|Hne].
    { by rewrite poll_address_empty. }
    destruct (seen_get a (seen st)) as [w|] eqn:Hs.
    + erewrite poll_address_known by done. unfold store_of. simpl.
      unfold advance_watermark. destruct (last _); [|done].
      split; [done |]. intros b Hb. simpl. by rewrite lookup_insert_ne.
    + destruct (last txs) as [newest|] eqn:Hl.
      * erewrite poll_address_initial by done. unfold store_of. simpl.
        split; [done |]. intros b Hb. by rewrite lookup_insert_ne.
      * by apply last_None in Hl.
  - apply fetch_raises_only_on_failure in E as [E ->].
    by rewrite poll_address_fetch_error.
Qed.


(** *** One cycle *)

Lemma poll_cycle_as_for_each n st :
  poll_cycle n st = for_each (elements (all_addresses (subs st))) (poll_address n) st.
Proof.
  unfold poll_cycle, bind, get_store. simpl.
  by destruct (for_each _ _ st) as [[r s1] t1].
Qed.

(** Wherever a run of iterations ends, the subscriptions are as before,
    and so is the watermark of an address that is not among them. *)
Lemma for_each_poll_frame n l st :
  subs (store_of (for_each l (poll_address n) st)) = subs st
  ∧ ∀ b, b ∉ l → seen (store_of (for_each l (poll_address n) st)) !! b = seen st !! b.
Proof.
  revert st. induction l as [|a l IH]; intros st; [done |].
  rewrite for_each_cons.
  destruct (poll_address_frame n a st) as [Hsubs1 Hseen1].
  destruct (poll_address n a st) as [[[u|e] s1] t1]; unfold store_of in *; simpl in *.
  - destruct (IH s1) as [Hsubs2 Hseen2]. unfold store_of in *.
    split; [congruence |].
    intros b [Hne Hb]%not_elem_of_cons. rewrite Hseen2 by done. by apply Hseen1.
  - split; [done |]. intros b [Hne Hb]%not_elem_of_cons. by apply Hseen1.
Qed.

Lemma poll_cycle_subs n st : subs (store_of (poll_cycle n st)) = subs st.
Proof. rewrite poll_cycle_as_for_each. apply for_each_poll_frame. Qed.

(** The iteration for [addr] starts with the subscriptions and with the
    watermark of [addr] that the cycle started with. *)
Lemma visits_start n st addr st_a :
  visits n st addr st_a →
  addr ∈ all_addresses (subs st)
  ∧ subs st_a = subs st
  ∧ seen st_a !! addr = seen st !! addr.
Proof.
  intros (before & after & t1 & Hsplit & Hb & Ha & E).
  destruct (for_each_poll_frame n before st) as [Hsubs Hseen].
  rewrite E in Hsubs, Hseen. unfold store_of in *. simpl in *.
  split_and!; [|done | by apply Hseen].
  apply elem_of_elements. rewrite Hsplit. apply elem_of_app. right. left.
Qed.

Lemma visits_seen_get n st addr st_a :
  visits n st addr st_a → seen_get addr (seen st_a) = seen_get addr (seen st).
Proof.
  intros (_ & _ & Hs)%visits_start. unfold seen_get. by rewrite Hs.
Qed.

(** The watermark that the iteration for [addr] leaves is the watermark of
    [addr] at the end of the cycle, however the cycle ends. *)
Lemma visits_end n st addr st_a :
  visits n st addr st_a →
  seen_get addr (seen (store_of (poll_cycle n st)))
  = seen_get addr (seen (store_of (poll_address n addr st_a))).
Proof.
  intros (before & after & t1 & Hsplit & Hb & Ha & E).
  rewrite poll_cycle_as_for_each, Hsplit, (for_each_app _ _ _ _ _ _ E).
  unfold store_of at 1. cbn [fst snd]. rewrite for_each_cons.
  destruct (poll_address n addr st_a) as [[[u|e] s1] ta]; unfold store_of; simpl; [|done].
  destruct (for_each_poll_frame n after s1) as [_ Hseen].
  unfold seen_get. unfold store_of in Hseen. by rewrite Hseen.
Qed.

(** An exception in the iteration for [addr] ends the cycle there. *)
Lemma visits_raise n st addr st_a e :
  visits n st addr st_a →
  result_of (poll_address n addr st_a) = Raise e →
  result_of (poll_cycle n st) = Raise e
  ∧ store_of (poll_cycle n st) = store_of (poll_address n addr st_a)
  ∧ ∃ t1, trace_of (poll_cycle n st) = t1 ++ trace_of (poll_address n addr st_a).
Proof.
  intros (before & after & t1 & Hsplit & Hb & Ha & E) Hr.
  rewrite poll_cycle_as_for_each, Hsplit, (for_each_app _ _ _ _ _ _ E).
  unfold result_of at 1, store_of at 1, trace_of at 1. cbn [fst snd]. rewrite for_each_cons.
  destruct (poll_address n addr st_a) as [[[u|e'] s1] ta];
    unfold result_of, store_of, trace_of in *; simpl in *; [done |].
  split_and!; [done | done | by exists t1].
Qed.

(** In a cycle that returns, every watched address gets its iteration, and
    the iteration returns. *)
Lemma poll_cycle_visits n st addr :
  result_of (poll_cycle n st) = Ret tt →
  addr ∈ all_addresses (subs st) →
  ∃ st_a, visits n st addr st_a ∧ result_of (poll_address n addr st_a) = Ret tt.
Proof.
  intros Hr Hin.
  apply elem_of_elements, list_elem_of_split in Hin as (before & after & Hsplit).
  pose proof (NoDup_elements (all_addresses (subs st))) as Hnd.
  rewrite Hsplit in Hnd. apply NoDup_app in Hnd as (_ & Hdisj & Hnd).
  apply NoDup_cons in Hnd as [Hafter _].
  assert (addr ∉ before) as Hbefore.
  { intros Hb. apply (Hdisj _ Hb). left. }
  rewrite poll_cycle_as_for_each, Hsplit in Hr.
  apply for_each_app_ret in Hr as (st_a & t1 & E1 & Hr).
  exists st_a. split; [by exists before, after, t1 |].
  rewrite for_each_cons in Hr.
  destruct (poll_address n addr st_a) as [[[[]|e] s1] ta]; done.
Qed.

Lemma seen_get_set_watermark addr h st :
  seen_get addr (seen (set_watermark addr h st)) = Some h.
Proof. unfold seen_get, set_watermark. simpl. by rewrite lookup_insert_eq. Qed.

(** C1.  Silent first synchronisation.  Take a cycle that starts from
    [st] and gets to the iteration for an address whose watermark is
    uninitialized (the iterations in front of it have returned).  If the
    chain-data service answers with a non-empty list, the iteration sends no
    message at all: it writes the hash of the last transaction of the list
    as the watermark, rewrites the watermark file and logs the
    synchronisation; that hash is the watermark at the end of the cycle,
    however the rest of the cycle goes.  If the answer is the empty list,
    the iteration does nothing and the watermark is still uninitialized at
    the end of the cycle. *)
Theorem initial_sync_is_silent n st addr st_a :
  visits n st addr st_a →
  seen_get addr (seen st) = None →
  (∀ txs newest,
      polygonscan_txs_for_address (txlist n addr) = Ret txs →
      last txs = Some newest →
      poll_address n addr st_a =
          (Ret tt, set_watermark addr (tx_hash newest) st_a,
           [SaveSeen (seen (set_watermark addr (tx_hash newest) st_a));
            Stdout (InitialSync addr (tx_hash newest))])
      ∧ sent (trace_of (poll_address n addr st_a)) = []
      ∧ seen_get addr (seen (store_of (poll_cycle n st))) = Some (tx_hash newest))
  ∧ (polygonscan_txs_for_address (txlist n addr) = Ret [] →
      poll_address n addr st_a = (Ret tt, st_a, [])
      ∧ seen_get addr (seen (store_of (poll_cycle n st))) = None).
Proof.
  intros Hv Hs.
  pose proof (visits_seen_get _ _ _ _ Hv) as Ha. rewrite Hs in Ha.
  pose proof (visits_end _ _ _ _ Hv) as Hc.
  split.
  - intros txs newest E Hl.
    pose proof (poll_address_initial n addr st_a txs newest E Hl Ha) as Hrun.
    split_and!; [done | by rewrite Hrun |].
    rewrite Hc, Hrun. apply seen_get_set_watermark.
  - intros E.
    pose proof (poll_address_empty n addr st_a E) as Hrun.
    split; [done |]. by rewrite Hc, Hrun.
Qed.

(** *** What a trace of notifications shows *)

Lemma sent_app t1 t2 : sent (t1 ++ t2) = sent t1 ++ sent t2.
Proof. apply omap_app. Qed.

Lemma watermark_writes_app addr t1 t2 :
  watermark_writes addr (t1 ++ t2) = watermark_writes addr t1 ++ watermark_writes addr t2.
Proof. apply omap_app. Qed.

Lemma sent_dispatch_round n st addr t :
  sent (dispatch_round n st addr t)
  = map (fun cid => (cid, message_text n addr t)) (subscribers addr (subs st)).
Proof.
  unfold dispatch_round. rewrite sent_app. simpl. rewrite app_nil_r.
  induction (subscribers addr (subs st)) as [|c l IH]; [done |].
  simpl. by rewrite <- IH.
Qed.

Lemma watermark_writes_dispatch_round n st addr t :
  watermark_writes addr (dispatch_round n st addr t) = [Some (tx_hash t)].
Proof.
  unfold dispatch_round. rewrite watermark_writes_app. simpl.
  unfold seen_get. rewrite lookup_insert_eq.
  induction (subscribers addr (subs st)) as [|c l IH]; done.
Qed.

Lemma sent_rounds n st addr new :
  sent (flat_map (dispatch_round n st addr) new)
  = flat_map (fun t => map (fun cid => (cid, message_text n addr t))
                         (subscribers addr (subs st))) new.
Proof.
  induction new as [|t new IH]; [done |].
  simpl. by rewrite sent_app, sent_dispatch_round, IH.
Qed.

Lemma watermark_writes_rounds n st addr new :
  watermark_writes addr (flat_map (dispatch_round n st addr) new)
  = map (fun t => Some (tx_hash t)) new.
Proof.
  induction new as [|t new IH]; [done |].
  simpl. by rewrite watermark_writes_app, watermark_writes_dispatch_round, IH.
Qed.

Lemma last_hashes w (new : list tx) :
  last (w :: map tx_hash new) = Some (default w (tx_hash <$> last new)).
Proof.
  destruct (last new) as [u|] eqn:Hl.
  - apply last_Some in Hl as [l' ->]. rewrite map_app. simpl.
    by rewrite app_comm_cons, last_snoc.
  - by apply last_None in Hl as ->.
Qed.

Lemma seen_get_advance_watermark addr new st w :
  seen_get addr (seen st) = Some w →
  seen_get addr (seen (advance_watermark addr new st))
  = Some (default w (tx_hash <$> last new)).
Proof.
  intros Hs. unfold advance_watermark.
  destruct (last new) as [u|]; [apply seen_get_set_watermark | done].
Qed.

(** What the iteration for a visited address does when the watermark is
    initialized and every new transaction renders. *)
Lemma poll_cycle_known n st addr st_a w txs :
  visits n st addr st_a →
  seen_get addr (seen st) = Some w →
  polygonscan_txs_for_address (txlist n addr) = Ret txs →
  txs ≠ [] →
  Forall (renders n addr) (select_new w txs) →
  subs st_a = subs st
  ∧ poll_address n addr st_a =
      (Ret tt, advance_watermark addr (select_new w txs) st_a,
       flat_map (dispatch_round n st_a addr) (select_new w txs))
  ∧ seen_get addr (seen (store_of (poll_cycle n st)))
    = Some (default w (tx_hash <$> last (select_new w txs))).
Proof.
  intros Hv Hs E Hne Hr.
  pose proof (visits_seen_get _ _ _ _ Hv) as Ha. rewrite Hs in Ha.
  pose proof (visits_end _ _ _ _ Hv) as Hc.
  pose proof (poll_address_known_all n addr st_a txs w E Hne Ha Hr) as Hrun.
  split_and!; [by apply visits_start in Hv as (_ & ? & _) | done |].
  rewrite Hc, Hrun. by apply seen_get_advance_watermark.
Qed.


Lemma last_n_2_cases {A} (l : list A) :
  l ≠ [] →
  (∃ init x y, l = init ++ [x; y] ∧ last_n 2 l = [x; y])
  ∨ (∃ x, l = [x] ∧ last_n 2 l = [x]).
Proof.
  intros Hne. destruct l as [|y l _] using rev_ind; [done |].
  destruct l as [|x l _] using rev_ind.
  - right. by exists y.
  - left. exists l, x, y. rewrite <- app_assoc. simpl.
    split; [done | apply last_n_2_snoc2].
Qed.

(** C3 (amended).  Take a cycle that starts from [st] and gets to the
    iteration for an address with a watermark [w] that is the hash of no
    entry of the non-empty fetched list.  When the formatter returns a text
    for the last two entries of the list, the iteration performs the
    dispatch rounds of these two, the older one first, or of the only entry
    when the list has a single one; nothing else is sent. *)
Theorem lossy_recovery_last_two n st addr st_a w txs :
  visits n st addr st_a →
  seen_get addr (seen st) = Some w →
  polygonscan_txs_for_address (txlist n addr) = Ret txs →
  txs ≠ [] →
  w ∉ map tx_hash txs →
  Forall (renders n addr) (last_n 2 txs) →
  ∃ new,
    ((∃ init x y, txs = init ++ [x; y] ∧ new = [x; y]) ∨ (∃ x, txs = [x] ∧ new = [x]))
    ∧ poll_address n addr st_a =
        (Ret tt, advance_watermark addr new st_a,
         flat_map (dispatch_round n st_a addr) new)
    ∧ sent (trace_of (poll_address n addr st_a))
      = flat_map (fun t => map (fun cid => (cid, message_text n addr t))
                             (subscribers addr (subs st))) new
    ∧ Forall (fun t => fmt_tx_message_for_subscribers (trades n addr t) addr t
                       = Ret (message_text n addr t)) new.
Proof.
  intros Hv Hs E Hne Hw Hr.
  destruct (poll_cycle_known n st addr st_a w _ Hv Hs E Hne) as (Hsubs & Hrun & _).
  { by rewrite select_new_absent. }
  rewrite select_new_absent in Hrun by done.
  exists (last_n 2 txs). rewrite Hrun. unfold trace_of. simpl.
  rewrite sent_rounds, Hsubs. split_and!; try done.
  - destruct (last_n_2_cases txs Hne) as [(init & x & y & -> & ->)|(x & -> & ->)]; eauto 10.
  - eapply Forall_impl; [exact Hr |]. intros t. apply renders_message_text.
Qed.

(** *** The canonical order *)

Lemma elem_of_map_split w (l : list tx) :
  w ∈ map tx_hash l → ∃ pre t post, l = pre ++ t :: post ∧ tx_hash t = w.
Proof.
  induction l as [|t l IH]; simpl; intros Hin; [by apply elem_of_nil in Hin |].
  apply elem_of_cons in Hin as [->|Hin].
  - by exists [], t, l.
  - destruct (IH Hin) as (pre & u & post & -> & Hu). by exists (t :: pre), u, post.
Qed.

Lemma sublist_earlier (chain : list string) a l b :
  a :: l `sublist_of` chain → b ∈ l → earlier chain a b.
Proof.
  revert l. induction chain as [|x chain IH]; intros l Hsub Hb.
  - by apply sublist_nil_r in Hsub.
  - apply sublist_cons_r in Hsub as [Hsub|(l' & [= <- <-] & Hsub)].
    + destruct (IH _ Hsub Hb) as (i & j & Hi & Hj & Hij).
      exists (S i), (S j). split_and!; [done | done | lia].
    + assert (b ∈ chain) as Hbc by (by eapply elem_of_sublist).
      apply list_elem_of_lookup in Hbc as [j Hj].
      exists 0, (S j). split_and!; [done | done | lia].
Qed.

Lemma earlier_asym (chain : list string) a b :
  NoDup chain → earlier chain a b → ¬ earlier chain b a.
Proof.
  intros Hnd (i & j & Hi & Hj & Hij) (i' & j' & Hi' & Hj' & Hij').
  pose proof (NoDup_lookup _ _ _ _ Hnd Hi Hj').
  pose proof (NoDup_lookup _ _ _ _ Hnd Hj Hi'). lia.
Qed.

Lemma earlier_irrefl (chain : list string) a : NoDup chain → ¬ earlier chain a a.
Proof.
  intros Hnd (i & j & Hi & Hj & Hij).
  pose proof (NoDup_lookup _ _ _ _ Hnd Hi Hj). lia.
Qed.

Lemma last_last_n_2 {A} (l : list A) : last (last_n 2 l) = last l.
Proof.
  destruct l as [|z l]; [done |].
  destruct (last_n_2_cases (z :: l)) as [(init & x & y & Heq & ->)|(x & Heq & ->)];
    [done | | by rewrite Heq].
  by rewrite Heq, (cons_middle x init [y]), app_assoc, last_snoc.
Qed.

(** C7 (amended).  Watermark monotonicity holds for the steps that find
    the watermark.  Let [chain] be the canonical order of the hashes, without
    repetition, and let the fetched list follow it.  A step of the loop for
    another address leaves the watermark of [addr] as it is, whether it
    returns or raises.  A step for [addr] whose fetched list contains the
    watermark [w] processes the transactions [new] (the entries after [w],
    up to the first one that the formatter raises on), writing the hash of
    each as the watermark in turn: [w] followed by these hashes runs in
    canonical order, so every write is later than the one before; the
    watermark ends at the hash of the last processed transaction ([w]
    itself when there was none) and is not earlier than [w].  A step for
    [addr] whose fetched list does not contain [w] and whose last two
    entries render leaves the watermark at the hash of the last fetched
    entry, wherever that entry stands in the canonical order. *)
Theorem watermark_monotone_when_found n st addr w txs chain :
  NoDup chain →
  map tx_hash txs `sublist_of` chain →
  seen_get addr (seen st) = Some w →
  polygonscan_txs_for_address (txlist n addr) = Ret txs →
  (∀ b, b ≠ addr →
     seen_get addr (seen (store_of (poll_address n b st))) = Some w)
  ∧ (w ∈ map tx_hash txs →
     ∃ new final,
       new = dispatched n addr (select_new w txs)
       ∧ new `prefix_of` select_new w txs
       ∧ (Forall (renders n addr) (select_new w txs) → new = select_new w txs)
       ∧ watermark_writes addr (trace_of (poll_address n addr st))
         = map (fun t => Some (tx_hash t)) new
       ∧ w :: map tx_hash new `sublist_of` chain
       ∧ seen_get addr (seen (store_of (poll_address n addr st))) = Some final
       ∧ last (w :: map tx_hash new) = Some final
       ∧ ¬ earlier chain final w)
  ∧ (w ∉ map tx_hash txs →
     Forall (renders n addr) (last_n 2 txs) →
     ∀ newest, last txs = Some newest →
       seen_get addr (seen (store_of (poll_address n addr st)))
       = Some (tx_hash newest)).
Proof.
  intros Hnd Hsub Hs E. split_and!.
  { intros b Hb. destruct (poll_address_frame n b st) as [_ Hf].
    unfold seen_get. rewrite Hf by done. exact Hs. }
  2:{ intros Hout Hr newest Hl.
      erewrite poll_address_known_all;
        [|done | by destruct txs | done | by rewrite select_new_absent].
      rewrite select_new_absent by done. unfold store_of. simpl.
      erewrite seen_get_advance_watermark by done.
      by rewrite last_last_n_2, Hl. }
  intros Hin.
  destruct (elem_of_map_split _ _ Hin) as (pre & wtx & post & -> & Hw).
  assert (NoDup (map tx_hash (pre ++ wtx :: post))) as Hnd' by (by eapply sublist_NoDup).
  destruct (NoDup_hashes_split _ _ _ _ Hnd' Hw) as [Hpre Hpost].
  erewrite poll_address_known; [|done | by destruct pre | done].
  rewrite select_new_found by done. unfold store_of, trace_of. simpl.
  set (new := dispatched n addr post).
  assert (new `prefix_of` post) as Hpref by apply dispatched_prefix.
  assert (w :: map tx_hash new `sublist_of` chain) as Hsub'.
  { etrans; [|exact Hsub]. rewrite map_app. simpl. rewrite Hw.
    apply sublist_inserts_l. apply sublist_skip.
    pose proof Hpref as [k Hk]. rewrite Hk, map_app. by apply sublist_inserts_r. }
  exists new, (default w (tx_hash <$> last new)).
  split_and!; [done | done | by intros [? _]%dispatched_all | apply watermark_writes_rounds
              | done | by apply seen_get_advance_watermark | apply last_hashes |].
  destruct (last new) as [u|] eqn:Hl; simpl.
  - apply earlier_asym; [done |]. eapply sublist_earlier; [done |].
    apply last_Some in Hl as [l' ->]. rewrite map_app. simpl.
    apply elem_of_app. right. left.
  - by apply earlier_irrefl.
Qed.

(** ** Enrichment *)

Lemma lookup_failed_no_records r : lookup_failed r → lookup_records r = [].
Proof.
  destruct r as [|code body]; simpl; [done |]. intros Hc.
  unfold lookup_records. simpl.
  destruct (Z.eqb_spec code 200); [done | done].
Qed.

Lemma find_trade_no_match h ts t :
  (∀ tr, tr ∈ ts → ¬ record_matches h tr) → find_trade h ts ≠ Ret (Some t).
Proof.
  induction ts as [|x ts IH]; intros Hno; simpl; [done |].
  assert (find_trade h ts ≠ Ret (Some t)) as IH'.
  { apply IH. intros tr Htr. apply Hno. by right. }
  destruct (truthy x) eqn:Ex; simpl; [|done].
  destruct (trade_txhash x) as [txh|e] eqn:Eh; [|done].
  destruct (truthy txh) eqn:Et; [|done].
  destruct txh as [| | | |s| |]; try done.
  case_bool_decide as Hl; [|done].
  exfalso. apply (Hno x); [left |]. split; [done |].
  exists s. split_and!; [done | | done]. by destruct s.
Qed.

(** C8.  Enrichment fallback.  Take a transaction whose time stamp and
    value can be rendered and which has input data.  When the market-data
    lookup fails, or when none of the records it returns carries the hash of
    the transaction, the text composed for the notification is the
    plain-transaction text: the address, then the time, the sender, the
    receiver, the value, the link to the transaction and the first 200
    characters of the raw input, each on its line.  It is never a trade
    text. *)
Theorem enrichment_fallback_is_plain r addr t ts value input_data :
  lookup_failed r ∨ (∀ tr, tr ∈ lookup_records r → ¬ record_matches (tx_hash t) tr) →
  strftime_utc (tx_timeStamp t) = Ret ts →
  matic_str (tx_value t) = Ret value →
  tx_input t = Some input_data →
  fmt_tx_message_for_subscribers r addr t
  = Ret ("*New transaction by* `" +:+ addr +:+ "`" +:+ bsn +:+
         "*Time:* " +:+ ts +:+ bsn +:+
         "*From:* `" +:+ tx_from t +:+ "`" +:+ bsn +:+
         "*To:* `" +:+ tx_to t +:+ "`" +:+ bsn +:+
         "*Value (MATIC):* " +:+ value +:+ bsn +:+
         "*Tx:* https://polygonscan.com/tx/" +:+ tx_hash t +:+ bsn +:+ bsn +:+
         "_Raw input:_ `" +:+ PyStr.take 200 input_data +:+ "`")
  ∧ ∀ title outcome side price size,
      fmt_tx_message_for_subscribers r addr t
      ≠ Ret (trade_message addr ts t title outcome side price size).
Proof.
  intros H Ets Ev Ei.
  assert (fmt_tx_message_for_subscribers r addr t
          = Ret (plain_message addr ts value t input_data)) as ->.
  { assert (∀ tr, tr ∈ lookup_records r → ¬ record_matches (tx_hash t) tr) as Hno.
    { destruct H as [Hf|H]; [|done]. rewrite lookup_failed_no_records by done.
      intros tr Htr. by apply elem_of_nil in Htr. }
    unfold fmt_tx_message_for_subscribers, match_tx_with_polymarket_trade.
    rewrite Ets, Ev, Ei. unfold lookup_records in Hno.
    destruct (json_iter _) as [trs|e]; [|done].
    pose proof (find_trade_no_match (tx_hash t) trs) as Hnm.
    destruct (find_trade (tx_hash t) trs) as [[tr|]|e]; [|done..].
    by destruct (Hnm tr Hno). }
  split; [reflexivity |].
  intros ????? Heq.
  apply (f_equal (fun r => match r with Ret s => String.get 1 s | Raise _ => None end))
    in Heq.
  by vm_compute in Heq.
Qed.

(** ** The command loop *)

(** C10.  An update without a ['message'], or whose message is a
    dictionary with an absent, empty or otherwise falsy ['text'], is
    dropped: whether the handler returns or raises on a malformed ['chat'],
    it sends nothing and leaves both stores as they were. *)
Theorem process_update_ignores_empty n u st :
  PyDict.get "message" u = None
  ∨ (∃ m, PyDict.get "message" u = Some (JObj m)
          ∧ truthy (default (JStr "") (PyDict.get "text" m)) = false) →
  store_of (process_update n u st) = st
  ∧ trace_of (process_update n u st) = []
  ∧ sent (trace_of (process_update n u st)) = [].
Proof.
  intros [E|(m & E & Ht)]; unfold process_update; rewrite E; [done |].
  run_m. destruct (default (JObj []) (PyDict.get "chat" m)); simpl; try done.
  by rewrite Ht.
Qed.


(** *** Tokens and whitespace *)

Lemma append_cons c s1 s2 : String c s1 +:+ s2 = String c (s1 +:+ s2).
Proof. reflexivity. Qed.

(** One step of a string function on a string that starts with a known
    character. *)
Ltac str_step :=
  rewrite ?append_cons;
  cbn [PyStr.lstrip PyStr.rstrip PyStr.span_token PyStr.lower].

Lemma all_space_cons c s :
  PyStr.all_space (String c s) ↔ PyStr.is_space c = true ∧ PyStr.all_space s.
Proof. apply (Forall_cons (fun c => PyStr.is_space c = true)). Qed.

Lemma no_space_cons c s :
  PyStr.no_space (String c s) ↔ PyStr.is_space c = false ∧ PyStr.no_space s.
Proof. apply (Forall_cons (fun c => PyStr.is_space c = false)). Qed.

Lemma lstrip_all_space ws s :
  PyStr.all_space ws → PyStr.lstrip (ws +:+ s) = PyStr.lstrip s.
Proof.
  induction ws as [|c ws IH]; [done |].
  intros [Hc Hws]%all_space_cons. str_step. rewrite Hc. by apply IH.
Qed.

Lemma lstrip_token tok s :
  PyStr.no_space tok → tok ≠ "" → PyStr.lstrip (tok +:+ s) = tok +:+ s.
Proof.
  destruct tok as [|c tok]; [done |].
  intros [Hc _]%no_space_cons _. str_step. by rewrite Hc.
Qed.

Lemma rstrip_all_space ws : PyStr.all_space ws → PyStr.rstrip ws = "".
Proof.
  induction ws as [|c ws IH]; [done |].
  intros [Hc Hws]%all_space_cons. str_step. by rewrite IH, Hc.
Qed.

Lemma rstrip_token tok ws :
  PyStr.no_space tok → PyStr.all_space ws → PyStr.rstrip (tok +:+ ws) = tok +:+ "".
Proof.
  intros Htok Hws. induction tok as [|c tok IH].
  - by apply rstrip_all_space.
  - apply no_space_cons in Htok as [Hc Htok]. str_step. by rewrite IH, Hc.
Qed.

Lemma append_empty_r s : s +:+ "" = s.
Proof. induction s as [|c s IH]; [done |]. str_step. by rewrite IH. Qed.

Lemma strip_token ws1 tok ws2 :
  PyStr.all_space ws1 → PyStr.no_space tok → tok ≠ "" → PyStr.all_space ws2 →
  PyStr.strip (ws1 +:+ tok +:+ ws2) = tok.
Proof.
  intros H1 Ht Hne H2. unfold PyStr.strip.
  by rewrite lstrip_all_space, lstrip_token, rstrip_token, append_empty_r.
Qed.

Lemma span_token_no_space tok : PyStr.no_space tok → PyStr.span_token tok = (tok, "").
Proof.
  induction tok as [|c tok IH]; [done |].
  intros [Hc Htok]%no_space_cons. str_step. by rewrite Hc, IH.
Qed.

Lemma split_token tok :
  PyStr.no_space tok → tok ≠ "" → PyStr.split_maxsplit1 tok = [tok].
Proof.
  intros Ht Hne. unfold PyStr.split_maxsplit1.
  assert (PyStr.lstrip tok = tok) as ->.
  { rewrite <- (append_empty_r tok). by apply lstrip_token. }
  destruct tok; [done |]. cbn [PyStr.is_empty]. by rewrite span_token_no_space.
Qed.

Lemma lower_char_slash c : PyStr.lower_char c = "/"%char → c = "/"%char.
Proof.
  destruct c as [[] [] [] [] [] [] [] []]; vm_compute; congruence.
Qed.

Lemma lower_starts_with_slash tok rest :
  PyStr.lower tok = String "/" rest → PyStr.startswith "/" tok = true ∧ tok ≠ "".
Proof.
  destruct tok as [|c tok]; [done |]. str_step. intros [= Hc _].
  apply lower_char_slash in Hc as ->. split; [|done].
  unfold PyStr.startswith. by destruct tok.
Qed.

(** C6.  The dispatch of a command reads the first whitespace-delimited
    token of the text, lower-cased: two texts whose first tokens agree up to
    case and whose remaining parts are the same are handled alike.  And for
    an update whose text is one of [/follow], [/unfollow] and [/info] in any
    letter case, with nothing but whitespace around it, the handler takes
    the final branch: it replies with the unknown-command hint, and leaves
    the stores and the files as they were. *)
Theorem missing_argument_is_unknown_command n chat_id :
  (∀ text1 text2 p1 p2 rest,
      PyStr.split_maxsplit1 text1 = p1 :: rest →
      PyStr.split_maxsplit1 text2 = p2 :: rest →
      PyStr.lower p1 = PyStr.lower p2 →
      process_command n chat_id text1 = process_command n chat_id text2)
  ∧ (∀ u m st ws1 tok ws2,
      PyDict.get "message" u = Some (JObj m) →
      json_get "id" (default (JObj []) (PyDict.get "chat" m)) = Ret chat_id →
      PyDict.get "text" m = Some (JStr (ws1 +:+ tok +:+ ws2)) →
      PyStr.all_space ws1 → PyStr.no_space tok → PyStr.all_space ws2 →
      PyStr.lower tok ∈ ["/follow"; "/unfollow"; "/info"] →
      process_update n u st
      = (Ret tt, st, [SendTelegram (py_str chat_id) unknown_command_text])).
Proof.
  split.
  { intros text1 text2 p1 p2 rest E1 E2 Hl. unfold process_command.
    by rewrite E1, E2, Hl. }
  intros u m st ws1 tok ws2 Em Eid Et H1 Htok H2 Hcmd.
  assert (PyStr.startswith "/" tok = true ∧ tok ≠ "") as [Hslash Hne].
  { rewrite !elem_of_cons in Hcmd.
    destruct Hcmd as [H|[H|[H|H]]];
      [by eapply lower_starts_with_slash.. | by apply elem_of_nil in H]. }
  assert (negb (truthy (JStr (ws1 +:+ tok +:+ ws2))) = false) as Htruthy.
  { simpl. destruct (ws1 +:+ tok +:+ ws2) eqn:E; [|done].
    pose proof (strip_token ws1 tok ws2 H1 Htok Hne H2) as Hs. rewrite E in Hs.
    by rewrite <- Hs in Hne. }
  unfold process_update. rewrite Em. run_m. rewrite Eid, Et.
  cbn [default from_option id]. rewrite Htruthy, strip_token, Hslash by done.
  unfold process_command. rewrite split_token by done.
  rewrite !elem_of_cons in Hcmd.
  destruct Hcmd as [->|[->|[->|H]]]; [done.. | by apply elem_of_nil in H].
Qed.


(** ** The stores that the bot can reach

    Both loops keep every watched list duplicate free: the command loop
    changes the subscriptions through [add_subscription] and
    [remove_subscription] only, and the notification loop does not change
    them. *)

Lemma process_command_store n chat_id text st :
  store_of (process_command n chat_id text st) = st
  ∨ ∃ a, store_of (process_command n chat_id text st)
         = store_of (add_subscription chat_id a st)
       ∨ store_of (process_command n chat_id text st)
         = store_of (remove_subscription chat_id a st).
Proof.
  unfold process_command.
  destruct (PyStr.split_maxsplit1 text) as [|p0 rest]; [by left |].
  cbv zeta.
  destruct (bool_decide (PyStr.lower p0 = "/help")); [by left |].
  destruct (bool_decide (PyStr.lower p0 = "/follow") && _) eqn:E1.
  { right. exists (default "" (match rest with a :: _ => Some a | [] => None end)). left.
    unfold store_of, bind.
    by destruct (add_subscription chat_id _ st) as [[[[]|e] s1] t1]. }
  destruct (bool_decide (PyStr.lower p0 = "/unfollow") && _) eqn:E2.
  { right. exists (default "" (match rest with a :: _ => Some a | [] => None end)). right.
    unfold store_of, bind.
    by destruct (remove_subscription chat_id _ st) as [[[[]|e] s1] t1]. }
  left. destruct (bool_decide (PyStr.lower p0 = "/list")).
  { unfold store_of. run_m. by destruct (default [] _). }
  destruct (bool_decide (PyStr.lower p0 = "/info") && _); [|done].
  unfold store_of, bind, lift. by destruct (fmt_wallet_info n _).
Qed.

Lemma process_update_wf n u st :
  subs_wf st → subs_wf (store_of (process_update n u st)).
Proof.
  intros Hwf.
  assert (∀ chat_id text, subs_wf (store_of (process_command n chat_id text st))) as Hc.
  { intros chat_id text.
    destruct (process_command_store n chat_id text st) as [->|[a [->| ->]]];
      [done | by apply add_subscription_wf | by apply remove_subscription_wf]. }
  unfold process_update. destruct (PyDict.get "message" u) as [m|]; [|done].
  destruct m as [| | | | | |m]; try done.
  run_m. destruct (default (JObj []) (PyDict.get "chat" m)) as [| | | | | |chat]; try done.
  simpl. destruct (truthy _); simpl; [|done].
  destruct (default (JStr "") (PyDict.get "text" m)) as [| | | |s| |]; try done.
  destruct (PyStr.startswith "/" (PyStr.strip s)) eqn:Es.
  - specialize (Hc (default JNull (PyDict.get "id" chat)) (PyStr.strip s)).
    unfold store_of in *.
    by destruct (process_command _ _ _ st) as [[r s1] t1].
  - destruct (_ && _); [|done].
    unfold store_of, bind, lift. by destruct (fmt_wallet_info n _).
Qed.

Lemma poll_cycle_wf n st : subs_wf st → subs_wf (store_of (poll_cycle n st)).
Proof.
  intros Hwf cid. unfold watch_list. rewrite poll_cycle_subs. apply Hwf.
Qed.


(** ** Further properties of the code *)

(** *** Normal forms of addresses *)

Lemma is_space_lower_char c : PyStr.is_space (PyStr.lower_char c) = PyStr.is_space c.
Proof. by destruct c as [[] [] [] [] [] [] [] []]. Qed.

Lemma lower_char_idemp c : PyStr.lower_char (PyStr.lower_char c) = PyStr.lower_char c.
Proof. by destruct c as [[] [] [] [] [] [] [] []]. Qed.

Lemma lower_idemp s : PyStr.lower (PyStr.lower s) = PyStr.lower s.
Proof.
  induction s as [|c s IH]; [done |].
  cbn [PyStr.lower]. by rewrite lower_char_idemp, IH.
Qed.

Lemma is_empty_lower s : PyStr.is_empty (PyStr.lower s) = PyStr.is_empty s.
Proof. by destruct s. Qed.

Lemma lstrip_lower s : PyStr.lstrip (PyStr.lower s) = PyStr.lower (PyStr.lstrip s).
Proof.
  induction s as [|c s IH]; [done |].
  cbn [PyStr.lower PyStr.lstrip]. rewrite is_space_lower_char.
  by destruct (PyStr.is_space c).
Qed.

Lemma rstrip_lower s : PyStr.rstrip (PyStr.lower s) = PyStr.lower (PyStr.rstrip s).
Proof.
  induction s as [|c s IH]; [done |].
  cbn [PyStr.lower PyStr.rstrip]. rewrite is_space_lower_char, IH, is_empty_lower.
  by destruct (PyStr.is_space c && PyStr.is_empty (PyStr.rstrip s)).
Qed.

Lemma strip_lower s : PyStr.strip (PyStr.lower s) = PyStr.lower (PyStr.strip s).
Proof. unfold PyStr.strip. by rewrite lstrip_lower, rstrip_lower. Qed.

Lemma lstrip_head_ok s : head_ok (PyStr.lstrip s).
Proof.
  induction s as [|c s IH]; [done |].
  cbn [PyStr.lstrip]. by destruct (PyStr.is_space c) eqn:E.
Qed.

Lemma lstrip_fixed s : head_ok s → PyStr.lstrip s = s.
Proof. destruct s as [|c s]; [done |]. cbn [head_ok PyStr.lstrip]. by intros ->. Qed.

Lemma rstrip_head_ok s : head_ok s → head_ok (PyStr.rstrip s).
Proof.
  destruct s as [|c s]; [done |]. cbn [head_ok PyStr.rstrip].
  intros Hc. by rewrite Hc.
Qed.

Lemma rstrip_idemp s : PyStr.rstrip (PyStr.rstrip s) = PyStr.rstrip s.
Proof.
  induction s as [|c s IH]; [done |].
  cbn [PyStr.rstrip].
  destruct (PyStr.is_space c && PyStr.is_empty (PyStr.rstrip s)) eqn:E; [done |].
  cbn [PyStr.rstrip]. by rewrite IH, E.
Qed.

Lemma strip_idemp s : PyStr.strip (PyStr.strip s) = PyStr.strip s.
Proof.
  unfold PyStr.strip.
  rewrite (lstrip_fixed (PyStr.rstrip _)) by apply rstrip_head_ok, lstrip_head_ok.
  apply rstrip_idemp.
Qed.

Lemma norm_addr_norm a : norm_addr (norm_addr a) = norm_addr a.
Proof. unfold norm_addr. by rewrite strip_lower, strip_idemp, lower_idemp. Qed.

(** The last character of a stripped string is not whitespace. *)
Lemma rstrip_no_trailing_space s c :
  PyStr.rstrip s ≠ "" → last (list_ascii_of_string (PyStr.rstrip s)) = Some c →
  PyStr.is_space c = false.
Proof.
  induction s as [|d s IH]; [done |].
  cbn [PyStr.rstrip].
  destruct (PyStr.is_space d && PyStr.is_empty (PyStr.rstrip s)) eqn:E; [done |].
  intros _. cbn [list_ascii_of_string].
  destruct (PyStr.rstrip s) as [|e r] eqn:Er.
  - simpl. intros [= <-]. simpl in E. by rewrite andb_true_r in E.
  - intros Hl. apply IH; [done |].
    cbn [list_ascii_of_string] in Hl |- *. by rewrite last_cons_cons in Hl.
Qed.

(** Stripping and lower-casing keep a text in the ASCII range. *)
Lemma isascii_cons c s :
  PyStr.isascii (String c s) = (N_of_ascii c <? 128)%N && PyStr.isascii s.
Proof. reflexivity. Qed.

Lemma lower_char_ascii c :
  (N_of_ascii (PyStr.lower_char c) <? 128)%N = (N_of_ascii c <? 128)%N.
Proof. by destruct c as [[] [] [] [] [] [] [] []]. Qed.

Lemma isascii_lower s : PyStr.isascii (PyStr.lower s) = PyStr.isascii s.
Proof.
  induction s as [|c s IH]; [done |].
  cbn [PyStr.lower]. by rewrite !isascii_cons, lower_char_ascii, IH.
Qed.

Lemma isascii_lstrip s : PyStr.isascii s = true → PyStr.isascii (PyStr.lstrip s) = true.
Proof.
  induction s as [|c s IH]; [done |].
  cbn [PyStr.lstrip]. destruct (PyStr.is_space c); [|done].
  rewrite isascii_cons. intros [_ Hs]%andb_true_iff. by apply IH.
Qed.

Lemma isascii_rstrip s : PyStr.isascii s = true → PyStr.isascii (PyStr.rstrip s) = true.
Proof.
  induction s as [|c s IH]; [done |].
  rewrite isascii_cons. intros [Hc Hs]%andb_true_iff. cbn [PyStr.rstrip].
  destruct (PyStr.is_space c && PyStr.is_empty (PyStr.rstrip s)); [done |].
  rewrite isascii_cons, Hc. by apply IH.
Qed.

Lemma isascii_strip s : PyStr.isascii s = true → PyStr.isascii (PyStr.strip s) = true.
Proof. intros Hs. unfold PyStr.strip. by apply isascii_rstrip, isascii_lstrip. Qed.

(** X1.  On ASCII text [norm_addr] yields a normal form: the result is
    ASCII text again, normalizing twice is normalizing once, and the result
    is left alone by [strip] and by [lower], so it has no whitespace at
    either end and no upper-case letter. *)
Theorem norm_addr_idempotent a :
  PyStr.isascii a = true →
  PyStr.isascii (norm_addr a) = true
  ∧ norm_addr (norm_addr a) = norm_addr a
  ∧ PyStr.strip (norm_addr a) = norm_addr a
  ∧ PyStr.lower (norm_addr a) = norm_addr a
  ∧ head_ok (norm_addr a)
  ∧ ∀ c, last (list_ascii_of_string (norm_addr a)) = Some c → PyStr.is_space c = false.
Proof.
  intros Hascii. split_and!.
  - unfold norm_addr. rewrite isascii_lower. by apply isascii_strip.
  - apply norm_addr_norm.
  - unfold norm_addr. by rewrite strip_lower, strip_idemp.
  - unfold norm_addr. apply lower_idemp.
  - unfold norm_addr. rewrite <- strip_lower. unfold PyStr.strip.
    apply rstrip_head_ok, lstrip_head_ok.
  - intros c Hl. unfold norm_addr in Hl. rewrite <- strip_lower in Hl.
    unfold PyStr.strip in Hl. eapply rstrip_no_trailing_space; [|done].
    intros E. by rewrite E in Hl.
Qed.


(** *** Following and unfollowing *)

Lemma list_remove_other a b l : b ≠ a → b ∈ list_remove a l ↔ b ∈ l.
Proof.
  intros Hne. induction l as [|x l IH]; simpl; [done |].
  destruct (decide (a = x)) as [->|Hx].
  - rewrite elem_of_cons. split; [by right | intros [?|?]; [by subst | done]].
  - by rewrite !elem_of_cons, IH.
Qed.

Lemma list_remove_snoc a l : a ∉ l → list_remove a (l ++ [a]) = l.
Proof.
  induction l as [|x l IH]; intros Hn; simpl.
  - by rewrite decide_True.
  - apply not_elem_of_cons in Hn as [Hne Hn].
    rewrite decide_False by done. f_equal. by apply IH.
Qed.

(** X2.  Unfollowing a listed address returns [True] and drops it from the
    caller's list (whose other entries stay), rewrites the subscription
    file, and touches neither the lists of the other subscribers nor any
    watermark: the watermark of the address outlives the subscription. *)
Theorem remove_subscription_removes chat_id address st :
  norm_addr address ∈ watch_list (py_str chat_id) st →
  NoDup (watch_list (py_str chat_id) st) →
  result_of (remove_subscription chat_id address st) = Ret true
  ∧ (norm_addr address
      ∉ watch_list (py_str chat_id) (store_of (remove_subscription chat_id address st)))
  ∧ (∀ b, b ≠ norm_addr address →
       b ∈ watch_list (py_str chat_id) (store_of (remove_subscription chat_id address st))
       ↔ b ∈ watch_list (py_str chat_id) st)
  ∧ (∀ cid, cid ≠ py_str chat_id →
       watch_list cid (store_of (remove_subscription chat_id address st))
       = watch_list cid st)
  ∧ seen (store_of (remove_subscription chat_id address st)) = seen st
  ∧ trace_of (remove_subscription chat_id address st)
    = [SaveSubs (subs (store_of (remove_subscription chat_id address st)))].
Proof.
  intros Hin Hnd. rewrite remove_subscription_present by done.
  unfold result_of, store_of, trace_of. simpl. split_and!; try done.
  - rewrite watch_list_set_eq. by apply list_remove_NoDup.
  - intros b Hb. rewrite watch_list_set_eq. by apply list_remove_other.
  - intros cid Hc. by apply watch_list_set_ne.
Qed.

(** X3.  Following an address that is not yet listed returns [True], puts
    its normal form at the end of the caller's list, leaves the lists of the
    other subscribers alone, and rewrites first the subscription file and
    then the watermark file with the new contents. *)
Theorem add_subscription_appends chat_id address st :
  norm_addr address ∉ watch_list (py_str chat_id) st →
  result_of (add_subscription chat_id address st) = Ret true
  ∧ watch_list (py_str chat_id) (store_of (add_subscription chat_id address st))
    = watch_list (py_str chat_id) st ++ [norm_addr address]
  ∧ (∀ cid, cid ≠ py_str chat_id →
       watch_list cid (store_of (add_subscription chat_id address st))
       = watch_list cid st)
  ∧ trace_of (add_subscription chat_id address st)
    = [SaveSubs (subs (store_of (add_subscription chat_id address st)));
       SaveSeen (seen (store_of (add_subscription chat_id address st)))].
Proof.
  intros Hin. rewrite add_subscription_fresh by done.
  unfold result_of, store_of, trace_of. simpl. split_and!; try done.
  - apply watch_list_set_eq.
  - intros cid Hc. by apply watch_list_set_ne.
Qed.

(** X4.  Following a new address and unfollowing it again gives back every
    subscriber's list as it was; both calls return [True]; the watermark
    store keeps the key that following created. *)
Theorem follow_then_unfollow chat_id addr1 addr2 st :
  norm_addr addr1 = norm_addr addr2 →
  norm_addr addr1 ∉ watch_list (py_str chat_id) st →
  result_of (add_subscription chat_id addr1 st) = Ret true
  ∧ result_of (remove_subscription chat_id addr2
                 (store_of (add_subscription chat_id addr1 st))) = Ret true
  ∧ (∀ cid,
       watch_list cid (store_of (remove_subscription chat_id addr2
                                   (store_of (add_subscription chat_id addr1 st))))
       = watch_list cid st)
  ∧ seen (store_of (remove_subscription chat_id addr2
                      (store_of (add_subscription chat_id addr1 st))))
    = seen_setdefault (norm_addr addr1) (seen st).
Proof.
  intros Hnorm Hin.
  pose proof (add_subscription_fresh chat_id addr1 st Hin) as Ha.
  destruct (add_subscription chat_id addr1 st) as [[r1 st1] t1].
  injection Ha as -> Hst1 _.
  assert (watch_list (py_str chat_id) st1
          = watch_list (py_str chat_id) st ++ [norm_addr addr1]) as Hl1.
  { rewrite Hst1. apply watch_list_set_eq. }
  assert (norm_addr addr2 ∈ watch_list (py_str chat_id) st1) as Hin1.
  { rewrite Hl1, <- Hnorm. apply elem_of_app. right. left. }
  unfold result_of, store_of. cbn [fst snd].
  rewrite (remove_subscription_present chat_id addr2 st1 Hin1). cbn [fst snd].
  split_and!; try done.
  - intros cid. rewrite Hl1, <- Hnorm, list_remove_snoc by done.
    destruct (decide (py_str chat_id = cid)) as [<-|Hne].
    + by rewrite watch_list_set_eq.
    + rewrite watch_list_set_ne by done. rewrite Hst1. by apply watch_list_set_ne.
  - by rewrite Hst1.
Qed.


(** *** What the command loop does to the stores *)

Lemma process_update_store n u st :
  store_of (process_update n u st) = st
  ∨ ∃ a, store_of (process_update n u st)
         = store_of (add_subscription (update_chat_id u) a st)
       ∨ store_of (process_update n u st)
         = store_of (remove_subscription (update_chat_id u) a st).
Proof.
  unfold process_update, update_chat_id.
  destruct (PyDict.get "message" u) as [m|]; [|by left].
  destruct m as [| | | | | |m]; try by left.
  run_m. destruct (default (JObj []) (PyDict.get "chat" m)) as [| | | | | |chat];
    try by left.
  simpl. destruct (truthy _); simpl; [|by left].
  destruct (default (JStr "") (PyDict.get "text" m)) as [| | | |s| |]; try by left.
  destruct (PyStr.startswith "/" (PyStr.strip s)) eqn:Es.
  - pose proof (process_command_store n (default JNull (PyDict.get "id" chat))
                  (PyStr.strip s) st) as Hc.
    unfold store_of in *.
    by destruct (process_command _ _ _ st) as [[r s1] t1].
  - left. destruct (_ && _); [|done].
    unfold store_of, bind, lift. by destruct (fmt_wallet_info n _).
Qed.

Lemma add_subscription_normalized chat_id address st :
  subs_normalized st → subs_normalized (store_of (add_subscription chat_id address st)).
Proof.
  intros Hn.
  destruct (decide (norm_addr address ∈ watch_list (py_str chat_id) st)) as [Hin|Hin].
  - by rewrite add_subscription_present.
  - rewrite add_subscription_fresh by done. unfold store_of. simpl.
    intros cid a. destruct (decide (py_str chat_id = cid)) as [<-|Hne].
    + rewrite watch_list_set_eq, elem_of_app, list_elem_of_singleton.
      intros [Ha| ->]; [by eapply Hn | apply norm_addr_norm].
    + rewrite watch_list_set_ne by done. apply Hn.
Qed.

Lemma remove_subscription_normalized chat_id address st :
  subs_normalized st → subs_normalized (store_of (remove_subscription chat_id address st)).
Proof.
  intros Hn.
  destruct (decide (norm_addr address ∈ watch_list (py_str chat_id) st)) as [Hin|Hin].
  - rewrite remove_subscription_present by done. unfold store_of. simpl.
    intros cid a. destruct (decide (py_str chat_id = cid)) as [<-|Hne].
    + rewrite watch_list_set_eq. intros Ha. eapply Hn. by eapply list_remove_subseteq.
    + rewrite watch_list_set_ne by done. apply Hn.
  - unfold remove_subscription. run_m. fold (watch_list (py_str chat_id) st).
    by rewrite bool_decide_false.
Qed.

(** X5.  Both loops keep the subscription store clean.  If every watched
    list is duplicate free and holds normal forms only, as in the empty
    store, the same is true after [process_update] has handled any update
    and after any polling cycle. *)
Theorem loops_keep_lists_clean n u st :
  subs_wf st → subs_normalized st →
  (subs_wf (store_of (process_update n u st))
   ∧ subs_normalized (store_of (process_update n u st)))
  ∧ (subs_wf (store_of (poll_cycle n st))
     ∧ subs_normalized (store_of (poll_cycle n st))).
Proof.
  intros Hwf Hn. split.
  - destruct (process_update_store n u st) as [->|[a [->| ->]]].
    + done.
    + split; [by apply add_subscription_wf | by apply add_subscription_normalized].
    + split; [by apply remove_subscription_wf | by apply remove_subscription_normalized].
  - split; intros cid; unfold watch_list; rewrite poll_cycle_subs.
    + apply Hwf.
    + apply Hn.
Qed.

(** X6.  In a clean store, unfollowing an address exactly as the list shows
    it succeeds: the call returns [True] and the address is gone from the
    caller's list. *)
Theorem listed_address_can_be_removed chat_id a st :
  subs_wf st → subs_normalized st →
  a ∈ watch_list (py_str chat_id) st →
  result_of (remove_subscription chat_id a st) = Ret true
  ∧ a ∉ watch_list (py_str chat_id) (store_of (remove_subscription chat_id a st)).
Proof.
  intros Hwf Hn Hin. pose proof (Hn _ _ Hin) as Ha.
  rewrite remove_subscription_present by (by rewrite Ha).
  unfold result_of, store_of. simpl. split; [done |].
  rewrite watch_list_set_eq, Ha. by apply list_remove_NoDup.
Qed.

(** X7.  The command loop never overwrites a watermark, whatever the
    update: after [process_update] the watermark store is as it was, or one
    address that had no key has got the key, with [None]. *)
Theorem process_update_keeps_watermarks n u st :
  seen (store_of (process_update n u st)) = seen st
  ∨ ∃ a, seen st !! a = None
         ∧ seen (store_of (process_update n u st)) = <[a := None]> (seen st).
Proof.
  destruct (process_update_store n u st) as [->|[a [->| ->]]]; [by left | |].
  - destruct (decide (norm_addr a ∈ watch_list (py_str (update_chat_id u)) st)) as [Hin|Hin].
    + left. by rewrite add_subscription_present.
    + rewrite add_subscription_fresh by done. unfold store_of, seen_setdefault. simpl.
      destruct (seen st !! norm_addr a) eqn:E; [by left | right; eauto].
  - left.
    destruct (decide (norm_addr a ∈ watch_list (py_str (update_chat_id u)) st)) as [Hin|Hin].
    + by rewrite remove_subscription_present.
    + unfold remove_subscription. run_m.
      fold (watch_list (py_str (update_chat_id u)) st). by rewrite bool_decide_false.
Qed.


(** *** Whom the command loop answers *)

Lemma sent_nil : sent [] = [].
Proof. reflexivity. Qed.

Lemma sent_cons e t :
  sent (e :: t)
  = match e with SendTelegram c m => (c, m) :: sent t | _ => sent t end.
Proof. by destruct e. Qed.

Ltac no_answer := exists (@nil string); split; [reflexivity | cbn [length]; repeat constructor].
Ltac one_answer :=
  unfold trace_of, send_telegram, emit; cbn [fst snd app];
  rewrite ?sent_cons, ?sent_nil;
  eexists [_]; split; [reflexivity | cbn [length]; repeat constructor].
Ltac two_answers :=
  unfold trace_of, send_telegram, emit; cbn [fst snd app];
  rewrite ?sent_cons, ?sent_nil;
  eexists [_; _]; split; [reflexivity | cbn [length]; repeat constructor].

Lemma process_command_sent n chat_id text st :
  ∃ msgs, sent (trace_of (process_command n chat_id text st))
          = map (fun m => (py_str chat_id, m)) msgs
          ∧ (length msgs ≤ 1)%nat.
Proof.
  unfold process_command.
  destruct (PyStr.split_maxsplit1 text) as [|p0 rest]; [no_answer |].
  cbv zeta.
  destruct (bool_decide (PyStr.lower p0 = "/help")).
  { exists [help_text]. split; [reflexivity | cbn [length]; repeat constructor]. }
  destruct (bool_decide (PyStr.lower p0 = "/follow") && _).
  { set (a := default "" _). unfold bind.
    destruct (decide (norm_addr a ∈ watch_list (py_str chat_id) st)) as [Hin|Hin].
    - rewrite add_subscription_present by done. one_answer.
    - rewrite add_subscription_fresh by done. one_answer. }
  destruct (bool_decide (PyStr.lower p0 = "/unfollow") && _).
  { set (a := default "" _). unfold bind.
    destruct (decide (norm_addr a ∈ watch_list (py_str chat_id) st)) as [Hin|Hin].
    - rewrite remove_subscription_present by done. one_answer.
    - unfold remove_subscription. run_m. fold (watch_list (py_str chat_id) st).
      rewrite bool_decide_false by done. one_answer. }
  destruct (bool_decide (PyStr.lower p0 = "/list")).
  { run_m. destruct (default [] _); one_answer. }
  destruct (bool_decide (PyStr.lower p0 = "/info") && _); [|one_answer].
  unfold bind, lift. destruct (fmt_wallet_info n _); [one_answer | no_answer].
Qed.

(** X8.  [process_update] answers the chat of the update and nobody else,
    with at most two messages. *)
Theorem process_update_answers_sender n u st :
  ∃ msgs, sent (trace_of (process_update n u st))
          = map (fun m => (py_str (update_chat_id u), m)) msgs
          ∧ (length msgs ≤ 2)%nat.
Proof.
  unfold process_update, update_chat_id.
  destruct (PyDict.get "message" u) as [m|]; [|no_answer].
  destruct m as [| | | | | |m]; try no_answer.
  run_m. destruct (default (JObj []) (PyDict.get "chat" m)) as [| | | | | |chat];
    try no_answer.
  simpl. destruct (truthy _); simpl; [|no_answer].
  destruct (default (JStr "") (PyDict.get "text" m)) as [| | | |s| |]; try no_answer.
  destruct (PyStr.startswith "/" (PyStr.strip s)) eqn:Es.
  - destruct (process_command_sent n (default JNull (PyDict.get "id" chat))
                (PyStr.strip s) st) as (msgs & Hs & Hl).
    unfold trace_of in *.
    destruct (process_command _ _ _ st) as [[r s1] t1]. simpl in *.
    exists msgs. split; [done | by apply Nat.le_le_succ_r].
  - destruct (_ && _); [|one_answer].
    unfold bind, lift. destruct (fmt_wallet_info n _); [two_answers | no_answer].
Qed.


(** *** What a polling cycle never does *)

Lemma elem_of_all_addresses a d :
  a ∈ all_addresses d ↔ ∃ cid lst, (cid, lst) ∈ d ∧ a ∈ lst.
Proof.
  induction d as [|[cid lst] d IH]; simpl.
  - split; [by intros ?%not_elem_of_empty | by intros (? & ? & ?%elem_of_nil & _)].
  - rewrite elem_of_union, elem_of_list_to_set, IH. split.
    + intros [Ha|(c & l & Hin & Ha)].
      * exists cid, lst. split; [left | done].
      * exists c, l. split; [by right | done].
    + intros (c & l & Hin & Ha). apply elem_of_cons in Hin as [[= -> ->]|Hin].
      * by left.
      * right. eauto.
Qed.

Lemma dispatch_round_events n st addr t e :
  e ∈ dispatch_round n st addr t →
  (∃ cid, e = SendTelegram cid (message_text n addr t))
  ∨ e = Stdout (AlertSent addr (tx_hash t))
  ∨ e = SaveSeen (<[addr := Some (tx_hash t)]> (seen st)).
Proof.
  unfold dispatch_round. rewrite elem_of_app, !elem_of_cons, elem_of_nil.
  intros [Hin|[->|[->|[]]]]; [left | by right; left | by right; right].
  apply list_elem_of_In, in_map_iff in Hin as (cid & <- & _). by exists cid.
Qed.

Lemma poll_address_no_save_subs n a st d :
  SaveSubs d ∉ trace_of (poll_address n a st).
Proof.
  destruct (polygonscan_txs_for_address (txlist n a)) as [txs|e] eqn:E.
  - destruct (decide (txs = [])) as [->|Hne].
    { rewrite poll_address_empty by done. apply not_elem_of_nil. }
    destruct (seen_get a (seen st)) as [w|] eqn:Hs.
    + erewrite poll_address_known by done. unfold trace_of. simpl. intros Hin.
      apply list_elem_of_In, in_flat_map in Hin as (t & _ & Hin).
      apply list_elem_of_In, dispatch_round_events in Hin as [[cid H]|[H|H]]; discriminate H.
    + destruct (last txs) as [newest|] eqn:Hl; [|by apply last_None in Hl].
      erewrite poll_address_initial by done. unfold trace_of. simpl.
      rewrite !elem_of_cons, elem_of_nil. intros [H|[H|[]]]; discriminate H.
  - apply fetch_raises_only_on_failure in E as [E ->].
    rewrite poll_address_fetch_error by done. unfold trace_of. simpl.
    rewrite elem_of_cons, elem_of_nil. intros [H|[]]; discriminate H.
Qed.

Lemma for_each_poll_no_save_subs n l st d :
  SaveSubs d ∉ trace_of (for_each l (poll_address n) st).
Proof.
  revert st. induction l as [|a l IH]; intros st; [apply not_elem_of_nil |].
  rewrite for_each_cons.
  pose proof (poll_address_no_save_subs n a st d) as Ha.
  destruct (poll_address n a st) as [[[u|e] s1] t1]; unfold trace_of in *; simpl in *;
    [|done].
  rewrite elem_of_app. intros [H|H]; [done | by apply (IH s1)].
Qed.

(** X9.  Whether a polling cycle runs to its end or is ended by an
    exception, it leaves the subscriptions as they are, it never rewrites
    the subscription file, and it does not touch the watermark of an address
    that no subscriber watches. *)
Theorem poll_cycle_frame n st :
  subs (store_of (poll_cycle n st)) = subs st
  ∧ (∀ d, SaveSubs d ∉ trace_of (poll_cycle n st))
  ∧ (∀ b, (¬ ∃ cid lst, (cid, lst) ∈ subs st ∧ b ∈ lst) →
       seen (store_of (poll_cycle n st)) !! b = seen st !! b).
Proof.
  split_and!.
  - apply poll_cycle_subs.
  - intros d. rewrite poll_cycle_as_for_each. apply for_each_poll_no_save_subs.
  - intros b Hb. rewrite poll_cycle_as_for_each.
    apply for_each_poll_frame. by rewrite elem_of_elements, elem_of_all_addresses.
Qed.


(** *** Polling the same data again *)

Lemma last_hash_middle (pre post : list tx) wtx :
  tx_hash <$> last (pre ++ wtx :: post)
  = Some (default (tx_hash wtx) (tx_hash <$> last post)).
Proof.
  destruct (last post) as [u|] eqn:Hl.
  - apply last_Some in Hl as [l' ->].
    by rewrite app_comm_cons, app_assoc, last_snoc.
  - apply last_None in Hl as ->. by rewrite last_snoc.
Qed.

(** After an iteration that returns, the watermark of its address is the
    hash of the last fetched entry. *)
Lemma poll_address_settles n addr st txs :
  polygonscan_txs_for_address (txlist n addr) = Ret txs →
  NoDup (map tx_hash txs) →
  txs ≠ [] →
  result_of (poll_address n addr st) = Ret tt →
  seen_get addr (seen (store_of (poll_address n addr st))) = tx_hash <$> last txs.
Proof.
  intros E Hnd Hne. destruct (seen_get addr (seen st)) as [w|] eqn:Hs.
  - erewrite poll_address_known by done. unfold result_of, store_of. simpl.
    intros ->%dispatch_outcome_ret.
    erewrite seen_get_advance_watermark by done.
    destruct (decide (w ∈ map tx_hash txs)) as [Hin|Hout].
    + destruct (elem_of_map_split _ _ Hin) as (pre & wtx & post & -> & Hw).
      destruct (NoDup_hashes_split _ _ _ _ Hnd Hw) as [Hpre Hpost].
      by rewrite select_new_found, last_hash_middle, Hw.
    + rewrite select_new_absent, last_last_n_2 by done.
      destruct (last txs) as [u|] eqn:Hl; [done | by apply last_None in Hl].
  - destruct (last txs) as [newest|] eqn:Hl; [|by apply last_None in Hl].
    erewrite poll_address_initial by done. unfold store_of. simpl. intros _.
    apply seen_get_set_watermark.
Qed.

(** An iteration whose watermark is already the hash of the last fetched
    entry does nothing. *)
Lemma poll_address_quiet n addr st txs :
  polygonscan_txs_for_address (txlist n addr) = Ret txs →
  NoDup (map tx_hash txs) →
  seen_get addr (seen st) = tx_hash <$> last txs →
  poll_address n addr st = (Ret tt, st, []).
Proof.
  intros E Hnd Hs. destruct (last txs) as [u|] eqn:Hl.
  - apply last_Some in Hl as [l' ->]. simpl in Hs.
    erewrite poll_address_known; [|done | by destruct l' | done].
    destruct (NoDup_hashes_split (tx_hash u) l' [] u Hnd eq_refl) as [Hpre Hpost].
    by rewrite select_new_found.
  - apply last_None in Hl as ->. by apply poll_address_empty.
Qed.

Lemma for_each_poll_quiet n l st :
  (∀ a, a ∈ l →
     result_of (poll_address n a st) = Ret tt
     ∧ store_of (poll_address n a st) = st
     ∧ sent (trace_of (poll_address n a st)) = []) →
  result_of (for_each l (poll_address n) st) = Ret tt
  ∧ store_of (for_each l (poll_address n) st) = st
  ∧ sent (trace_of (for_each l (poll_address n) st)) = [].
Proof.
  induction l as [|a l IH]; intros Hq; [done |].
  destruct (Hq a) as (Hres & Hst & Hsent); [left |].
  destruct IH as (Hr & Hs & Ht); [intros b Hb; apply Hq; by right |].
  rewrite for_each_cons.
  destruct (poll_address n a st) as [[[[]|e] s1] t1];
    unfold result_of, store_of, trace_of in *; simpl in *; [|done].
  subst s1. by rewrite sent_app, Hsent, Ht.
Qed.

(** X10.  Polling settles.  When the hashes of every fetched list are
    pairwise distinct and a cycle has run to its end, a second cycle that
    gets the same answers returns as well, sends no message and leaves the
    stores as the first cycle left them. *)
Theorem repolling_is_silent n st :
  (∀ addr txs,
      polygonscan_txs_for_address (txlist n addr) = Ret txs → NoDup (map tx_hash txs)) →
  result_of (poll_cycle n st) = Ret tt →
  result_of (poll_cycle n (store_of (poll_cycle n st))) = Ret tt
  ∧ store_of (poll_cycle n (store_of (poll_cycle n st))) = store_of (poll_cycle n st)
  ∧ sent (trace_of (poll_cycle n (store_of (poll_cycle n st)))) = [].
Proof.
  intros Hnd Hret.
  set (st1 := store_of (poll_cycle n st)).
  assert (∀ a, a ∈ elements (all_addresses (subs st1)) →
            result_of (poll_address n a st1) = Ret tt
            ∧ store_of (poll_address n a st1) = st1
            ∧ sent (trace_of (poll_address n a st1)) = []) as Hq.
  { intros a Ha. unfold st1 in Ha. rewrite poll_cycle_subs in Ha.
    apply elem_of_elements in Ha.
    destruct (polygonscan_txs_for_address (txlist n a)) as [txs|e] eqn:E.
    - destruct (decide (txs = [])) as [->|Hne].
      { by rewrite poll_address_empty. }
      destruct (poll_cycle_visits n st a Hret Ha) as (st_a & Hv & Hra).
      pose proof (visits_end _ _ _ _ Hv) as Hc. fold st1 in Hc.
      rewrite (poll_address_settles n a st_a txs E (Hnd _ _ E) Hne Hra) in Hc.
      by rewrite (poll_address_quiet n a st1 txs E (Hnd _ _ E) Hc).
    - apply fetch_raises_only_on_failure in E as [E ->].
      by rewrite poll_address_fetch_error. }
  rewrite poll_cycle_as_for_each. by apply for_each_poll_quiet.
Qed.

(** X11.  When the chain-data service fails for every address, a cycle
    changes nothing and sends nothing: its trace is one error line for each
    watched address. *)
Theorem poll_cycle_all_fetches_fail n st :
  (∀ addr, txlist n addr = TxlistFailure) →
  poll_cycle n st
  = (Ret tt, st,
     map (fun a => Stdout (FetchError a RequestError))
       (elements (all_addresses (subs st)))).
Proof.
  intros Hfail. rewrite poll_cycle_as_for_each.
  generalize (elements (all_addresses (subs st))). intros l.
  induction l as [|a l IH]; [done |].
  rewrite for_each_cons, poll_address_fetch_error, IH by done. done.
Qed.


(** *** Who is notified *)

Lemma elem_of_subscribers c addr d :
  c ∈ subscribers addr d → ∃ lst, (c, lst) ∈ d ∧ addr ∈ lst.
Proof.
  unfold subscribers. intros Hc.
  apply list_elem_of_In, in_map_iff in Hc as ([c' lst] & <- & Hin).
  apply list_elem_of_In, list_elem_of_filter in Hin as [Ha Hin]. eauto.
Qed.

(** A message of an iteration is the text of a transaction that the
    iteration took as new, sent to a subscriber of the address. *)
Lemma poll_address_sent n a st c m :
  (c, m) ∈ sent (trace_of (poll_address n a st)) →
  ∃ lst txs w t,
    (c, lst) ∈ subs st ∧ a ∈ lst
    ∧ polygonscan_txs_for_address (txlist n a) = Ret txs
    ∧ seen_get a (seen st) = Some w
    ∧ t ∈ select_new w txs
    ∧ fmt_tx_message_for_subscribers (trades n a t) a t = Ret m.
Proof.
  destruct (polygonscan_txs_for_address (txlist n a)) as [txs|e] eqn:E.
  - destruct (decide (txs = [])) as [->|Hne].
    { rewrite poll_address_empty by done. by intros ?%elem_of_nil. }
    destruct (seen_get a (seen st)) as [w|] eqn:Hs.
    + erewrite poll_address_known by done. unfold trace_of. simpl.
      rewrite sent_rounds. intros Hin.
      apply list_elem_of_In, in_flat_map in Hin as (t & Ht & Hin).
      apply in_map_iff in Hin as (c' & [= -> <-] & Hc).
      apply list_elem_of_In, elem_of_subscribers in Hc as (lst & Hl & Ha).
      apply list_elem_of_In, elem_of_dispatched in Ht as [Ht Hr].
      exists lst, txs, w, t. split_and!; try done.
      by apply renders_message_text.
    + destruct (last txs) as [newest|] eqn:Hl; [|by apply last_None in Hl].
      erewrite poll_address_initial by done. by intros ?%elem_of_nil.
  - apply fetch_raises_only_on_failure in E as [E ->].
    rewrite poll_address_fetch_error by done. by intros ?%elem_of_nil.
Qed.

(** X12.  Every message that a polling cycle sends goes to a subscriber
    whose list contains an address [a], and is the text that the formatter
    returns for a transaction [t] of the list fetched for [a]: one of those
    that the scan takes as new against the watermark that [a] had when the
    cycle started.  Nobody is told about an address they do not watch, and
    nothing is sent for an address without a watermark. *)
Theorem poll_cycle_notifies_watchers_only n st c m :
  (c, m) ∈ sent (trace_of (poll_cycle n st)) →
  ∃ a lst txs w t,
    (c, lst) ∈ subs st ∧ a ∈ lst
    ∧ polygonscan_txs_for_address (txlist n a) = Ret txs
    ∧ seen_get a (seen st) = Some w
    ∧ t ∈ select_new w txs
    ∧ fmt_tx_message_for_subscribers (trades n a t) a t = Ret m.
Proof.
  rewrite poll_cycle_as_for_each.
  pose proof (NoDup_elements (all_addresses (subs st))) as Hnd. revert Hnd.
  generalize (elements (all_addresses (subs st))). intros l Hnd.
  assert (∀ st0, subs st0 = subs st →
            (∀ a, a ∈ l → seen st0 !! a = seen st !! a) →
            (c, m) ∈ sent (trace_of (for_each l (poll_address n) st0)) →
            ∃ a lst txs w t,
              (c, lst) ∈ subs st ∧ a ∈ lst
              ∧ polygonscan_txs_for_address (txlist n a) = Ret txs
              ∧ seen_get a (seen st) = Some w
              ∧ t ∈ select_new w txs
              ∧ fmt_tx_message_for_subscribers (trades n a t) a t = Ret m) as H;
    [|by apply H].
  induction Hnd as [|a l Ha Hnd IH]; intros st0 Hsubs Hseen; [by intros ?%elem_of_nil |].
  rewrite for_each_cons.
  pose proof (poll_address_sent n a st0 c m) as Hsent.
  destruct (poll_address_frame n a st0) as [Hsubs1 Hseen1].
  assert ((c, m) ∈ sent (trace_of (poll_address n a st0)) →
          ∃ a lst txs w t,
              (c, lst) ∈ subs st ∧ a ∈ lst
              ∧ polygonscan_txs_for_address (txlist n a) = Ret txs
              ∧ seen_get a (seen st) = Some w
              ∧ t ∈ select_new w txs
              ∧ fmt_tx_message_for_subscribers (trades n a t) a t = Ret m) as Hhead.
  { intros Hin. destruct (Hsent Hin) as (lst & txs & w & t & Hl & Hal & E & Hw & Ht & Hm).
    exists a, lst, txs, w, t. rewrite Hsubs in Hl. split_and!; try done.
    unfold seen_get in *. rewrite <- Hseen; [done | left]. }
  destruct (poll_address n a st0) as [[[u|e] s1] t1];
    unfold store_of, trace_of in *; simpl in *; [|done].
  rewrite sent_app, elem_of_app. intros [Hin|Hin]; [by apply Hhead |].
  apply (IH s1); [congruence | | done].
  intros b Hb. rewrite Hseen1; [apply Hseen; by right |]. intros ->. done.
Qed.

(** *** Enrichment with a trade record *)

Lemma find_trade_passed_over h before rest :
  Forall (passed_over h) before →
  find_trade h (before ++ rest) = find_trade h rest.
Proof.
  induction 1 as [|x before Hx _ IH]; [done |].
  simpl. destruct Hx as [Hf|(txh & Eh & Hx)].
  - by rewrite Hf.
  - destruct (truthy x); simpl; [|done]. rewrite Eh.
    destruct Hx as [Hf|(s & -> & Hs)].
    + by rewrite Hf.
    + destruct (truthy (JStr s)); [|done]. by rewrite bool_decide_false.
Qed.

(** X13.  The first record that carries the hash wins.  Take a
    transaction whose time stamp and value can be rendered.  When the
    records in front are passed over and the record [JObj o] carries the
    hash of the transaction (compared without regard to case), the
    notification is the trade text built from the fields of that record:
    the market from ['title'], else ['name'], else ['market'], then the
    outcome, the side, the price and the size, the time and the link. *)
Theorem first_matching_trade_is_used r addr t ts value before o after :
  lookup_records r = before ++ JObj o :: after →
  Forall (passed_over (tx_hash t)) before →
  record_matches (tx_hash t) (JObj o) →
  strftime_utc (tx_timeStamp t) = Ret ts →
  matic_str (tx_value t) = Ret value →
  fmt_tx_message_for_subscribers r addr t
  = Ret ("*Polymarket Trade by* `" +:+ addr +:+ "`" +:+ bsn +:+
         "*Market:* "
           +:+ py_str (py_or (default JNull (PyDict.get "title" o))
                         (py_or (default JNull (PyDict.get "name" o))
                                (default JNull (PyDict.get "market" o)))) +:+ bsn +:+
         "*Outcome:* " +:+ py_str (default JNull (PyDict.get "outcome" o)) +:+ bsn +:+
         "*Side:* " +:+ py_str (default JNull (PyDict.get "side" o)) +:+
         " | *Price:* " +:+ py_str (default JNull (PyDict.get "price" o)) +:+
         " | *Size:* " +:+ py_str (default JNull (PyDict.get "size" o)) +:+ bsn +:+
         "*Time:* " +:+ ts +:+ bsn +:+
         "*Tx:* https://polygonscan.com/tx/" +:+ tx_hash t +:+ bsn).
Proof.
  intros Hrec Hbefore (Ht & txh & Eh & Hne & Hl) Ets Ev.
  unfold fmt_tx_message_for_subscribers, match_tx_with_polymarket_trade.
  rewrite Ets, Ev. unfold lookup_records in Hrec.
  destruct (json_iter _) as [trs|e]; [|by destruct before].
  rewrite Hrec, find_trade_passed_over by done.
  cbn [find_trade]. rewrite Ht, Eh. cbn [negb truthy].
  destruct txh as [|c txh]; [done |]. cbn [PyStr.is_empty negb].
  rewrite bool_decide_true by done. by rewrite Ht.
Qed.

(** X14.  A record that the matcher cannot read hides the ones after it.
    Take a transaction whose time stamp and value can be rendered and which
    has input data.  When the records in front are passed over and the next
    one is truthy but has no [get] method, or has a truthy hash entry that
    is not a string, the matcher raises, the exception is swallowed, and the
    text is the plain one, whatever records follow. *)
Theorem unreadable_record_disables_enrichment
    r addr t ts value input_data before bad after :
  lookup_records r = before ++ bad :: after →
  Forall (passed_over (tx_hash t)) before →
  breaks_matcher bad →
  strftime_utc (tx_timeStamp t) = Ret ts →
  matic_str (tx_value t) = Ret value →
  tx_input t = Some input_data →
  fmt_tx_message_for_subscribers r addr t
  = Ret (plain_message addr ts value t input_data).
Proof.
  intros Hrec Hbefore (Ht & Hbad) Ets Ev Ei.
  unfold fmt_tx_message_for_subscribers, match_tx_with_polymarket_trade.
  rewrite Ets, Ev, Ei. unfold lookup_records in Hrec.
  destruct (json_iter _) as [trs|e]; [|by destruct before].
  rewrite Hrec, find_trade_passed_over by done.
  cbn [find_trade]. rewrite Ht. cbn [negb].
  destruct Hbad as [[e ->]|(txh & -> & Htx & Hns)]; [done |].
  rewrite Htx. destruct txh; try done. by destruct (Hns s).
Qed.


(** *** Commands with an argument, and plain texts *)

Lemma span_token_before_space tok c rest :
  PyStr.no_space tok → PyStr.is_space c = true →
  PyStr.span_token (tok +:+ String c rest) = (tok, String c rest).
Proof.
  intros Htok Hc. induction tok as [|d tok IH].
  - change ("" +:+ String c rest) with (String c rest).
    cbn [PyStr.span_token]. by rewrite Hc.
  - apply no_space_cons in Htok as [Hd Htok]. str_step. by rewrite Hd, IH.
Qed.

Lemma split_command tok ws arg :
  PyStr.no_space tok → tok ≠ "" → PyStr.all_space ws → ws ≠ "" →
  head_ok arg → arg ≠ "" →
  PyStr.split_maxsplit1 (tok +:+ ws +:+ arg) = [tok; arg].
Proof.
  intros Htok Hne Hws Hwne Harg Hane. unfold PyStr.split_maxsplit1.
  rewrite lstrip_token by done.
  destruct tok as [|d tok]; [done |]. rewrite append_cons. cbn [PyStr.is_empty].
  rewrite <- append_cons.
  destruct ws as [|c ws]; [done |]. rewrite (append_cons c ws arg).
  apply all_space_cons in Hws as [Hc Hws].
  rewrite span_token_before_space by done.
  rewrite <- (append_cons c ws arg), lstrip_all_space by (by apply all_space_cons).
  rewrite lstrip_fixed by done. by destruct arg.
Qed.

Lemma strip_nonempty s : PyStr.strip s ≠ "" → negb (truthy (JStr s)) = false.
Proof. by destruct s. Qed.

Lemma startswith_slash_append tok rest cmd :
  PyStr.lower tok = String "/" cmd → PyStr.startswith "/" (tok +:+ rest) = true.
Proof.
  destruct tok as [|c tok]; [done |]. cbn [PyStr.lower]. intros [= Hc _].
  apply lower_char_slash in Hc as ->. rewrite append_cons.
  unfold PyStr.startswith. cbn. by destruct (tok +:+ rest).
Qed.

(** X15.  [/follow] and [/unfollow] take all the text after the command
    word as the address, without looking at it.  For an ASCII text whose
    first token is the command in any letter case, followed by whitespace
    and a remainder, the handler calls [add_subscription] (or
    [remove_subscription]) with the remainder, and sends exactly one reply,
    which tells whether the address was new (or was found). *)
Theorem follow_takes_rest_of_text n u m chat_id s tok ws arg st :
  PyDict.get "message" u = Some (JObj m) →
  json_get "id" (default (JObj []) (PyDict.get "chat" m)) = Ret chat_id →
  PyDict.get "text" m = Some (JStr s) →
  PyStr.isascii s = true →
  PyStr.strip s = tok +:+ ws +:+ arg →
  PyStr.no_space tok → PyStr.all_space ws → ws ≠ "" → head_ok arg → arg ≠ "" →
  (PyStr.lower tok = "/follow" →
     result_of (process_update n u st) = Ret tt
     ∧ store_of (process_update n u st) = store_of (add_subscription chat_id arg st)
     ∧ sent (trace_of (process_update n u st))
       = [(py_str chat_id,
           if bool_decide (norm_addr arg ∈ watch_list (py_str chat_id) st)
           then "ℹ️ `" +:+ norm_addr arg +:+ "` was already in your list."
           else "✅ Now following `" +:+ norm_addr arg +:+ "` for alerts.")])
  ∧ (PyStr.lower tok = "/unfollow" →
     result_of (process_update n u st) = Ret tt
     ∧ store_of (process_update n u st) = store_of (remove_subscription chat_id arg st)
     ∧ sent (trace_of (process_update n u st))
       = [(py_str chat_id,
           if bool_decide (norm_addr arg ∈ watch_list (py_str chat_id) st)
           then "🗑️ Unfollowed `" +:+ norm_addr arg +:+ "`"
           else "⚠️ `" +:+ norm_addr arg +:+ "` not found in your subscriptions.")]).
Proof.
  intros Em Eid Et _ Hs Htok Hws Hwne Harg Hane.
  assert (∀ cmd, PyStr.lower tok = String "/" cmd →
            process_update n u st = process_command n chat_id (tok +:+ ws +:+ arg) st) as Hpc.
  { intros cmd Hcmd.
    assert (tok ≠ "") as Hne by (intros ->; discriminate Hcmd).
    unfold process_update. rewrite Em. run_m. rewrite Eid, Et.
    cbn [default from_option id].
    rewrite strip_nonempty by (rewrite Hs; by destruct tok).
    rewrite Hs, (startswith_slash_append tok _ cmd Hcmd).
    by destruct (process_command n chat_id _ st) as [[r s1] t1]. }
  assert (∀ cmd, PyStr.lower tok = String "/" cmd →
            PyStr.split_maxsplit1 (tok +:+ ws +:+ arg) = [tok; arg]) as Hsplit.
  { intros cmd Hcmd. apply split_command; try done. intros ->. discriminate Hcmd. }
  assert (negb (PyStr.is_empty arg) = true) as Harg' by (by destruct arg).
  split; intros Hcmd; rewrite (Hpc _ Hcmd); unfold process_command;
    rewrite (Hsplit _ Hcmd), Hcmd; cbn [default from_option id]; rewrite Harg'.
  - change (bool_decide ("/follow" = "/help")) with false.
    change (bool_decide ("/follow" = "/follow")) with true.
    cbn [andb]. unfold bind.
    destruct (decide (norm_addr arg ∈ watch_list (py_str chat_id) st)) as [Hin|Hin].
    + by rewrite bool_decide_true, add_subscription_present.
    + by rewrite bool_decide_false, add_subscription_fresh.
  - change (bool_decide ("/unfollow" = "/help")) with false.
    change (bool_decide ("/unfollow" = "/follow")) with false.
    change (bool_decide ("/unfollow" = "/unfollow")) with true.
    cbn [andb]. unfold bind.
    destruct (decide (norm_addr arg ∈ watch_list (py_str chat_id) st)) as [Hin|Hin].
    + by rewrite bool_decide_true, remove_subscription_present.
    + rewrite bool_decide_false by done.
      assert (remove_subscription chat_id arg st = (Ret false, st, [])) as ->; [|done].
      unfold remove_subscription. run_m. fold (watch_list (py_str chat_id) st).
      by rewrite bool_decide_false.
Qed.

(** X16.  An ASCII text that is not a command never changes a store and
    never subscribes by itself.  When, stripped, it starts with [0x] and has
    at least ten characters, the wallet summary is composed first: if that
    raises, the exception leaves the handler and nothing is sent; otherwise
    the answer is the summary followed by the prompt to follow the
    normalized address.  Any other text gets the one hint. *)
Theorem plain_text_is_answered_only n u m chat_id s st :
  PyDict.get "message" u = Some (JObj m) →
  json_get "id" (default (JObj []) (PyDict.get "chat" m)) = Ret chat_id →
  PyDict.get "text" m = Some (JStr s) →
  PyStr.isascii s = true →
  s ≠ "" →
  PyStr.startswith "/" (PyStr.strip s) = false →
  process_update n u st
  = if PyStr.startswith "0x" (PyStr.strip s) && (10 <=? PyStr.len (PyStr.strip s))%nat
    then match fmt_wallet_info n (PyStr.strip s) with
         | Ret info =>
             (Ret tt, st,
              [SendTelegram (py_str chat_id) info;
               SendTelegram (py_str chat_id)
                 ("To receive ongoing alerts for this address, reply with `/follow "
                  +:+ norm_addr (PyStr.strip s) +:+ "`")])
         | Raise e => (Raise e, st, [])
         end
    else (Ret tt, st, [SendTelegram (py_str chat_id) not_a_command_text]).
Proof.
  intros Em Eid Et _ Hne Hslash.
  unfold process_update. rewrite Em. run_m. rewrite Eid, Et.
  cbn [default from_option id].
  assert (negb (truthy (JStr s)) = false) as -> by (by destruct s).
  rewrite Hslash, strip_idemp.
  destruct (PyStr.startswith "0x" (PyStr.strip s) && _); [|done].
  by destruct (fmt_wallet_info n (PyStr.strip s)).
Qed.

(** X17.  The store and the wallet summary see an address through
    [norm_addr] only: following, unfollowing and summarizing an address and
    its normal form are the same computation. *)
Theorem operations_see_normal_form n chat_id a st :
  add_subscription chat_id (norm_addr a) st = add_subscription chat_id a st
  ∧ remove_subscription chat_id (norm_addr a) st = remove_subscription chat_id a st
  ∧ fmt_wallet_info n (norm_addr a) = fmt_wallet_info n a.
Proof.
  unfold add_subscription, remove_subscription, fmt_wallet_info.
  by rewrite !norm_addr_norm.
Qed.

(** X18.  The wallet summary degrades.  When the balance request fails
    or carries no balance (or the balance does not fit a float), and the
    transaction request fails or carries no transaction, the summary is the
    wallet line, the heading, the notice that nothing was found and the
    closing hint. *)
Theorem fmt_wallet_info_without_data n a :
  (∀ bal, polygonscan_balance (balance n (norm_addr a)) ≠ Ret (Some bal)) →
  (∀ t l, polygonscan_txs_for_address (txlist n (norm_addr a)) ≠ Ret (t :: l)) →
  fmt_wallet_info n a
  = Ret (PyStr.join PyStr.nl
           ["*Wallet:* `" +:+ norm_addr a +:+ "`";
            "*Recent transactions:*";
            "_No recent transactions found or API returned empty._";
            PyStr.nl +:+
              "_Send /follow <address> to subscribe to alerts for this address._"]).
Proof.
  intros Hb Ht. unfold fmt_wallet_info.
  destruct (polygonscan_balance _) as [[bal|]|e]; [by destruct (Hb bal) | |];
    (destruct (polygonscan_txs_for_address _) as [[|t l]|e']; [| by destruct (Ht t l) |]);
    reflexivity.
Qed.


(** *** What is taken as new *)

Lemma elem_of_map_split_first w (l : list tx) :
  w ∈ map tx_hash l →
  ∃ pre t post, l = pre ++ t :: post ∧ tx_hash t = w ∧ w ∉ map tx_hash pre.
Proof.
  induction l as [|t l IH]; simpl; intros Hin; [by apply elem_of_nil in Hin |].
  destruct (decide (tx_hash t = w)) as [Ht|Ht].
  - exists [], t, l. split_and!; [done | done | apply not_elem_of_nil].
  - apply elem_of_cons in Hin as [->|Hin]; [done |].
    destruct (IH Hin) as (pre & u & post & -> & Hu & Hpre).
    exists (t :: pre), u, post. split_and!; [done | done |].
    simpl. apply not_elem_of_cons. split; [congruence | done].
Qed.

Lemma select_new_after_first w pre wtx post :
  tx_hash wtx = w → w ∉ map tx_hash pre →
  select_new w (pre ++ wtx :: post) = filter (fun t => tx_hash t ≠ w) post.
Proof.
  intros Hw Hpre. unfold select_new, scan.
  rewrite fold_left_app, scan_absent by done. simpl.
  rewrite bool_decide_true by done. by rewrite scan_flag_set.
Qed.

Lemma last_n_sublist {A} k (l : list A) : last_n k l `sublist_of` l.
Proof. unfold last_n. apply sublist_drop. Qed.

Lemma last_n_length {A} k (l : list A) : (length (last_n k l) ≤ k)%nat.
Proof. unfold last_n. rewrite length_skipn. lia. Qed.

(** X19.  The transactions that an iteration takes as new are always a
    part of the fetched list, in fetch order.  When the watermark is in the
    list they all come after its first occurrence and none of them carries
    its hash; when it is not, they are at most two. *)
Theorem select_new_is_part_of_fetch w txs :
  select_new w txs `sublist_of` txs
  ∧ (w ∈ map tx_hash txs →
     ∃ pre wtx post,
       txs = pre ++ wtx :: post ∧ tx_hash wtx = w ∧ (w ∉ map tx_hash pre)
       ∧ select_new w txs `sublist_of` post
       ∧ Forall (fun t => tx_hash t ≠ w) (select_new w txs))
  ∧ (w ∉ map tx_hash txs → (length (select_new w txs) ≤ 2)%nat).
Proof.
  assert (w ∈ map tx_hash txs →
     ∃ pre wtx post,
       txs = pre ++ wtx :: post ∧ tx_hash wtx = w ∧ (w ∉ map tx_hash pre)
       ∧ select_new w txs `sublist_of` post
       ∧ Forall (fun t => tx_hash t ≠ w) (select_new w txs)) as Hfound.
  { intros Hin.
    destruct (elem_of_map_split_first _ _ Hin) as (pre & wtx & post & -> & Hw & Hpre).
    exists pre, wtx, post. rewrite select_new_after_first by done.
    split_and!; try done.
    - apply sublist_filter.
    - apply Forall_forall. intros t Ht. by apply list_elem_of_filter in Ht as [? _]. }
  split_and!; [|done |].
  - destruct (decide (w ∈ map tx_hash txs)) as [Hin|Hout].
    + destruct (Hfound Hin) as (pre & wtx & post & Heq & _ & _ & Hsub & _).
      etrans; [exact Hsub |]. rewrite Heq.
      apply sublist_inserts_l. by apply sublist_cons.
    + rewrite select_new_absent by done. apply last_n_sublist.
  - intros Hout. rewrite select_new_absent by done. apply last_n_length.
Qed.

(** *** Updates that make the handler raise *)

Lemma split_of_command text :
  PyStr.startswith "/" text = true → PyStr.split_maxsplit1 text ≠ [].
Proof.
  destruct text as [|c text]; [done |].
  unfold PyStr.startswith. cbn [String.prefix].
  destruct (ascii_dec "/" c) as [<-|]; [|done]. intros _.
  unfold PyStr.split_maxsplit1. cbn [PyStr.lstrip PyStr.is_empty].
  change (PyStr.is_space "/") with false. cbn [PyStr.is_empty].
  destruct (PyStr.span_token _) as [tok rest].
  by destruct (PyStr.is_empty _).
Qed.

(** A command that raises has done nothing: the only exception is the one
    of the wallet summary, which is composed before it is sent. *)
Lemma process_command_raises n chat_id text st e :
  PyStr.split_maxsplit1 text ≠ [] →
  result_of (process_command n chat_id text st) = Raise e →
  process_command n chat_id text st = (Raise e, st, []).
Proof.
  intros Hne. unfold process_command.
  destruct (PyStr.split_maxsplit1 text) as [|p0 rest]; [done |].
  cbv zeta.
  destruct (bool_decide (PyStr.lower p0 = "/help")); [done |].
  destruct (bool_decide (PyStr.lower p0 = "/follow") && _).
  { set (a := default "" _). unfold bind.
    destruct (decide (norm_addr a ∈ watch_list (py_str chat_id) st)) as [Hin|Hin].
    - by rewrite add_subscription_present.
    - by rewrite add_subscription_fresh. }
  destruct (bool_decide (PyStr.lower p0 = "/unfollow") && _).
  { set (a := default "" _). unfold bind.
    destruct (decide (norm_addr a ∈ watch_list (py_str chat_id) st)) as [Hin|Hin].
    - by rewrite remove_subscription_present.
    - unfold remove_subscription. run_m. fold (watch_list (py_str chat_id) st).
      by rewrite bool_decide_false. }
  destruct (bool_decide (PyStr.lower p0 = "/list")).
  { run_m. by destruct (default [] _). }
  destruct (bool_decide (PyStr.lower p0 = "/info") && _); [|done].
  unfold bind, lift, result_of.
  destruct (fmt_wallet_info n _) as [info|e']; [done |]. simpl. by intros [= ->].
Qed.

(** X20.  An update that makes [process_update] raise has had no effect.
    The exception is the [AttributeError] of a ['message'] or ['chat'] that
    is not a dictionary or of a truthy ['text'] that is not a string, or it
    comes from the wallet summary; either way it comes before any message is
    sent and before any store is changed, and the listener's guard turns it
    into one log line. *)
Theorem process_update_raises_cleanly n u st e :
  result_of (process_update n u st) = Raise e →
  process_update n u st = (Raise e, st, [])
  ∧ process_update_guarded n u st = (Ret tt, st, [Stdout (UpdateError e)]).
Proof.
  intros Hr.
  assert (process_update n u st = (Raise e, st, [])) as Hrun.
  { revert Hr. unfold process_update.
    destruct (PyDict.get "message" u) as [m|]; [|done].
    destruct m as [| | | | | |m]; try (by intros [= <-]).
    run_m. destruct (default (JObj []) (PyDict.get "chat" m)) as [| | | | | |chat];
      try (by intros [= <-]).
    simpl. destruct (truthy _); simpl; [|done].
    destruct (default (JStr "") (PyDict.get "text" m)) as [| | | |s| |];
      try (by intros [= <-]).
    destruct (PyStr.startswith "/" (PyStr.strip s)) eqn:Es.
    - pose proof (process_command_raises n (default JNull (PyDict.get "id" chat))
                    (PyStr.strip s) st e (split_of_command _ Es)) as Hc.
      unfold result_of in *.
      destruct (process_command _ _ _ st) as [[[[]|e'] s1] t1]; [done |].
      simpl in *. intros [= ->]. by rewrite Hc.
    - destruct (_ && _); [|done].
      unfold bind, lift, result_of.
      destruct (fmt_wallet_info n _) as [info|e']; [done |]. simpl. by intros [= ->]. }
  split; [done |]. unfold process_update_guarded. by rewrite Hrun.
Qed.

(** *** A record that cannot be rendered *)

(** X21.  The formatter is called outside any [try].  Take a cycle that
    gets to the iteration for an address with the watermark [w], and let
    the transactions taken as new be [ok], for which the formatter returns a
    text, then [t], on which it raises.  The rounds of [ok] are performed and
    the watermark is the hash of the last of them; then the exception leaves
    the iteration and the cycle.  Nothing is sent for [t] or for what comes
    after it, and the addresses that come later in the cycle are not
    polled. *)
Theorem unrendered_record_ends_cycle n st addr st_a w txs ok t rest e :
  visits n st addr st_a →
  seen_get addr (seen st) = Some w →
  polygonscan_txs_for_address (txlist n addr) = Ret txs →
  select_new w txs = ok ++ t :: rest →
  Forall (renders n addr) ok →
  fmt_tx_message_for_subscribers (trades n addr t) addr t = Raise e →
  poll_address n addr st_a
  = (Raise e, advance_watermark addr ok st_a, flat_map (dispatch_round n st_a addr) ok)
  ∧ result_of (poll_cycle n st) = Raise e
  ∧ store_of (poll_cycle n st) = advance_watermark addr ok st_a
  ∧ (∃ t1, trace_of (poll_cycle n st)
           = t1 ++ flat_map (dispatch_round n st_a addr) ok)
  ∧ seen_get addr (seen (store_of (poll_cycle n st)))
    = Some (default w (tx_hash <$> last ok)).
Proof.
  intros Hv Hs E Hnew Hok Ht.
  pose proof (visits_seen_get _ _ _ _ Hv) as Ha. rewrite Hs in Ha.
  assert (txs ≠ []) as Hne.
  { intros ->. by destruct ok. }
  pose proof (poll_address_known n addr st_a txs w E Hne Ha) as Hrun.
  rewrite Hnew in Hrun.
  destruct (dispatched_until n addr ok t rest e Hok Ht) as [Hd Ho].
  rewrite Hd, Ho in Hrun.
  destruct (visits_raise n st addr st_a e Hv) as (Hr & Hst & t1 & Htr).
  { by rewrite Hrun. }
  rewrite Hrun in Hst, Htr. unfold store_of at 2 in Hst. unfold trace_of at 2 in Htr.
  simpl in Hst, Htr.
  split_and!; [done | done | done | by exists t1 |].
  rewrite Hst. by apply seen_get_advance_watermark.
Qed.

End Bot.

(** ** The statements on the sample data *)

Lemma add_subscription_idempotent_witness :
  norm_addr "0xDEF" = norm_addr " 0xdef "
  ∧ add_subscription scalar_str (JInt 42) " 0xdef "
      (store_of (add_subscription scalar_str (JInt 42) "0xDEF" store_followed))
    = (Ret false, store_of (add_subscription scalar_str (JInt 42) "0xDEF" store_followed), [])
  ∧ watch_list "42" (store_of (add_subscription scalar_str (JInt 42) "0xDEF" store_followed))
    = ["0xabc"; "0xdef"].
Proof.
  split; [reflexivity |]. split; [|reflexivity].
  apply (add_subscription_idempotent scalar_str (JInt 42) "0xDEF" " 0xdef " store_followed).
  - reflexivity.
  - vm_compute. apply NoDup_cons. split; [|apply NoDup_nil_2].
    intros H. inversion H.
Defined.

Lemma remove_subscription_absent_witness :
  remove_subscription scalar_str (JInt 42) "0xDEF" store_followed
  = (Ret false, store_followed, []).
Proof.
  apply (remove_subscription_absent scalar_str (JInt 42) "0xDEF" store_followed).
  vm_compute. intros H. inversion H as [|? ? ? H']. inversion H'.
Defined.

(** With one watched address, the cycle starts with its iteration. *)
Lemma visits_followed txs :
  visits scalar_str seconds_str wei_str (net_with txs) store_followed "0xabc" store_followed.
Proof.
  exists [], [], []. split_and!; [reflexivity | apply not_elem_of_nil.. | reflexivity].
Qed.

Lemma visits_at txs h :
  visits scalar_str seconds_str wei_str (net_with txs) (store_at h) "0xabc" (store_at h).
Proof.
  exists [], [], []. split_and!; [reflexivity | apply not_elem_of_nil.. | reflexivity].
Qed.

Lemma initial_sync_is_silent_witness :
  seen_get "0xabc" (seen store_followed) = None
  ∧ poll_address scalar_str seconds_str wei_str (net_with [tx1; tx2; tx3]) "0xabc"
      store_followed
    = (Ret tt, set_watermark "0xabc" "0xh3" store_followed,
       [SaveSeen (seen (set_watermark "0xabc" "0xh3" store_followed));
        Stdout (InitialSync "0xabc" "0xh3")])
  ∧ seen_get "0xabc"
      (seen (store_of (poll_cycle scalar_str seconds_str wei_str
                         (net_with [tx1; tx2; tx3]) store_followed)))
    = Some "0xh3".
Proof.
  split; [reflexivity |].
  destruct (initial_sync_is_silent scalar_str seconds_str wei_str
              (net_with [tx1; tx2; tx3]) store_followed "0xabc" store_followed) as [H _].
  - apply visits_followed.
  - reflexivity.
  - destruct (H [tx1; tx2; tx3] tx3) as (Hrun & _ & Hend); [reflexivity.. |].
    split; [exact Hrun | exact Hend].
Defined.


Lemma absent_sample (l : list tx) :
  bool_decide ("0xgone" ∈ map tx_hash l) = false → "0xgone" ∉ map tx_hash l.
Proof. intros H Hin. by rewrite bool_decide_true in H. Qed.

Lemma lossy_recovery_last_two_witness :
  seen_get "0xabc" (seen (store_at "0xgone")) = Some "0xgone"
  ∧ ∃ new,
      ((∃ init x y, [tx1; tx2; tx3] = init ++ [x; y] ∧ new = [x; y])
       ∨ (∃ x, [tx1; tx2; tx3] = [x] ∧ new = [x]))
      ∧ poll_address scalar_str seconds_str wei_str (net_with [tx1; tx2; tx3]) "0xabc"
          (store_at "0xgone")
        = (Ret tt, advance_watermark "0xabc" new (store_at "0xgone"),
           flat_map (dispatch_round scalar_str seconds_str wei_str
                       (net_with [tx1; tx2; tx3]) (store_at "0xgone") "0xabc") new)
      ∧ sent (trace_of (poll_address scalar_str seconds_str wei_str
                          (net_with [tx1; tx2; tx3]) "0xabc" (store_at "0xgone")))
        = flat_map (fun t => map (fun cid =>
                       (cid, message_text scalar_str seconds_str wei_str
                               (net_with [tx1; tx2; tx3]) "0xabc" t))
                     (subscribers "0xabc" (subs (store_at "0xgone")))) new
      ∧ Forall (fun t =>
                  fmt_tx_message_for_subscribers scalar_str seconds_str wei_str
                    (trades (net_with [tx1; tx2; tx3]) "0xabc" t) "0xabc" t
                  = Ret (message_text scalar_str seconds_str wei_str
                           (net_with [tx1; tx2; tx3]) "0xabc" t)) new.
Proof.
  split; [reflexivity |].
  apply (lossy_recovery_last_two scalar_str seconds_str wei_str
           (net_with [tx1; tx2; tx3]) (store_at "0xgone") "0xabc" (store_at "0xgone")
           "0xgone" [tx1; tx2; tx3]).
  - apply visits_at.
  - reflexivity.
  - reflexivity.
  - discriminate.
  - apply absent_sample. reflexivity.
  - apply Forall_cons_2; [eexists; reflexivity |].
    apply Forall_cons_2; [eexists; reflexivity | apply Forall_nil_2].
Defined.

(** C3, as the claim puts it, fails on a list with a single entry: the
    watermark is initialized, its hash is not in the fetched list, the list
    is not empty and its entry renders, and the cycle sends one
    notification, for that entry, and not two. *)
Lemma lossy_recovery_single_entry :
  seen_get "0xabc" (seen (store_at "0xgone")) = Some "0xgone"
  ∧ polygonscan_txs_for_address (txlist (net_with [tx1]) "0xabc") = Ret [tx1]
  ∧ ("0xgone" ∉ map tx_hash [tx1])
  ∧ fmt_tx_message_for_subscribers scalar_str seconds_str wei_str
      (trades (net_with [tx1]) "0xabc" tx1) "0xabc" tx1
    = Ret (plain_message "0xabc" "1700000001" "1000000000000000000e-18" tx1 "0x")
  ∧ poll_cycle scalar_str seconds_str wei_str (net_with [tx1]) (store_at "0xgone")
    = (Ret tt, store_at "0xh1",
       [SendTelegram "42"
          (plain_message "0xabc" "1700000001" "1000000000000000000e-18" tx1 "0x");
        Stdout (AlertSent "0xabc" "0xh1");
        SaveSeen (seen (store_at "0xh1"))])
  ∧ sent (trace_of (poll_cycle scalar_str seconds_str wei_str (net_with [tx1])
                      (store_at "0xgone")))
    = [("42", plain_message "0xabc" "1700000001" "1000000000000000000e-18" tx1 "0x")]
  ∧ ¬ ∃ x y,
        sent (trace_of (poll_cycle scalar_str seconds_str wei_str (net_with [tx1])
                          (store_at "0xgone")))
        = flat_map (fun t => map (fun cid =>
                       (cid, message_text scalar_str seconds_str wei_str
                               (net_with [tx1]) "0xabc" t))
                     (subscribers "0xabc" (subs (store_at "0xgone")))) [x; y].
Proof.
  split_and!; [reflexivity | reflexivity | apply absent_sample; reflexivity
              | reflexivity | reflexivity | reflexivity |].
  intros (x & y & H). apply (f_equal length) in H. vm_compute in H. discriminate H.
Qed.

Lemma canonical_chain_NoDup : NoDup canonical_chain.
Proof. apply (bool_decide_unpack (NoDup canonical_chain)). vm_compute. exact I. Qed.

Lemma watermark_monotone_when_found_witness :
  ∃ new final,
    new = dispatched scalar_str seconds_str wei_str (net_with [tx1; tx2; tx3; tx4]) "0xabc"
            (select_new "0xh2" [tx1; tx2; tx3; tx4])
    ∧ new `prefix_of` select_new "0xh2" [tx1; tx2; tx3; tx4]
    ∧ (Forall (renders scalar_str seconds_str wei_str (net_with [tx1; tx2; tx3; tx4]) "0xabc")
         (select_new "0xh2" [tx1; tx2; tx3; tx4]) →
       new = select_new "0xh2" [tx1; tx2; tx3; tx4])
    ∧ watermark_writes "0xabc"
        (trace_of (poll_address scalar_str seconds_str wei_str
                     (net_with [tx1; tx2; tx3; tx4]) "0xabc" (store_at "0xh2")))
      = map (fun t => Some (tx_hash t)) new
    ∧ "0xh2" :: map tx_hash new `sublist_of` canonical_chain
    ∧ seen_get "0xabc"
        (seen (store_of (poll_address scalar_str seconds_str wei_str
                           (net_with [tx1; tx2; tx3; tx4]) "0xabc" (store_at "0xh2"))))
      = Some final
    ∧ last ("0xh2" :: map tx_hash new) = Some final
    ∧ ¬ earlier canonical_chain final "0xh2".
Proof.
  destruct (watermark_monotone_when_found scalar_str seconds_str wei_str
              (net_with [tx1; tx2; tx3; tx4]) (store_at "0xh2") "0xabc" "0xh2"
              [tx1; tx2; tx3; tx4] canonical_chain) as (_ & Hfound & _).
  - apply canonical_chain_NoDup.
  - reflexivity.
  - reflexivity.
  - reflexivity.
  - apply Hfound. simpl. rewrite !elem_of_cons. right. left. reflexivity.
Defined.

(** C7, as the claim puts it, fails when the watermark is not in the
    fetched list.  The watermark is the hash of the third transaction of the
    chain; the service answers with the first two only, in canonical order.
    The cycle notifies both and leaves the watermark at the second
    transaction, which is earlier than the third. *)
Lemma watermark_regresses_on_short_fetch :
  NoDup canonical_chain
  ∧ map tx_hash [tx1; tx2] `sublist_of` canonical_chain
  ∧ seen_get "0xabc" (seen (store_at "0xh3")) = Some "0xh3"
  ∧ result_of (poll_cycle scalar_str seconds_str wei_str (net_with [tx1; tx2])
                 (store_at "0xh3")) = Ret tt
  ∧ watermark_writes "0xabc"
      (trace_of (poll_cycle scalar_str seconds_str wei_str (net_with [tx1; tx2])
                   (store_at "0xh3")))
    = [Some "0xh1"; Some "0xh2"]
  ∧ seen_get "0xabc"
      (seen (store_of (poll_cycle scalar_str seconds_str wei_str (net_with [tx1; tx2])
                         (store_at "0xh3"))))
    = Some "0xh2"
  ∧ earlier canonical_chain "0xh2" "0xh3".
Proof.
  split_and!; [apply canonical_chain_NoDup | | reflexivity | reflexivity | reflexivity
              | reflexivity |].
  - simpl. unfold canonical_chain. do 2 apply sublist_skip. apply sublist_nil_l.
  - exists 1, 2. split_and!; [reflexivity | reflexivity | lia].
Qed.

Lemma enrichment_fallback_is_plain_witness :
  lookup_records (TradesBody 200 (Some (JArr [trade_for "0xother"])))
    = [trade_for "0xother"]
  ∧ fmt_tx_message_for_subscribers scalar_str seconds_str wei_str
      (TradesBody 200 (Some (JArr [trade_for "0xother"]))) "0xabc" tx2
    = Ret ("*New transaction by* `0xabc`\n*Time:* 1700000002\n*From:* `0xabc`\n"
           +:+ "*To:* `0xdef`\n*Value (MATIC):* 0e-18\n"
           +:+ "*Tx:* https://polygonscan.com/tx/0xh2\n\n_Raw input:_ `0xa9059cbb`").
Proof.
  split; [reflexivity |].
  destruct (enrichment_fallback_is_plain scalar_str seconds_str wei_str
              (TradesBody 200 (Some (JArr [trade_for "0xother"]))) "0xabc" tx2
              "1700000002" "0e-18" "0xa9059cbb") as [H _].
  - right. intros tr Htr.
    change (lookup_records (TradesBody 200 (Some (JArr [trade_for "0xother"]))))
      with [trade_for "0xother"] in Htr.
    apply list_elem_of_singleton in Htr. rewrite Htr.
    intros (_ & txh & Hh & _ & Hl).
    injection Hh as Hh. rewrite <- Hh in Hl. discriminate Hl.
  - reflexivity.
  - reflexivity.
  - reflexivity.
  - exact H.
Defined.

Lemma process_update_ignores_empty_witness :
  store_of (process_update scalar_str seconds_str wei_str (net_with [])
              (update_with "") store_followed) = store_followed
  ∧ trace_of (process_update scalar_str seconds_str wei_str (net_with [])
                (update_with "") store_followed) = []
  ∧ sent (trace_of (process_update scalar_str seconds_str wei_str (net_with [])
                      (update_with "") store_followed)) = [].
Proof.
  apply (process_update_ignores_empty scalar_str seconds_str wei_str (net_with [])
           (update_with "") store_followed).
  right. eexists. split; reflexivity.
Defined.

Lemma space_is_space : PyStr.all_space " ".
Proof. repeat constructor. Qed.

Lemma FOLLOW_no_space : PyStr.no_space "/FOLLOW".
Proof. repeat constructor. Qed.

Lemma missing_argument_is_unknown_command_witness :
  process_update scalar_str seconds_str wei_str (net_with [])
    (update_with " /FOLLOW ") store_followed
  = (Ret tt, store_followed, [SendTelegram "42" unknown_command_text]).
Proof.
  destruct (missing_argument_is_unknown_command scalar_str seconds_str wei_str
              (net_with []) (JInt 42)) as [_ H].
  apply (H (update_with " /FOLLOW ")
           [("chat", JObj [("id", JInt 42)]); ("text", JStr " /FOLLOW ")]
           store_followed " " "/FOLLOW" " ").
  - reflexivity.
  - reflexivity.
  - reflexivity.
  - apply space_is_space.
  - apply FOLLOW_no_space.
  - apply space_is_space.
  - left.
Defined.

(** The two cycles of the specification's example: the first one only sets
    the watermark, the second one notifies the fourth transaction. *)
Example two_cycles :
  sent (trace_of (poll_subscriptions scalar_str seconds_str wei_str
                    [net_with [tx1; tx2; tx3]; net_with [tx1; tx2; tx3; tx4]]
                    store_followed))
  = [("42", plain_message "0xabc" "1700000004" "7e-18" tx4 "0x")]
  ∧ seen_get "0xabc"
      (seen (store_of (poll_subscriptions scalar_str seconds_str wei_str
                         [net_with [tx1; tx2; tx3]; net_with [tx1; tx2; tx3; tx4]]
                         store_followed)))
    = Some "0xh4".
Proof. split; reflexivity. Qed.

(** A matching trade record switches the text to the trade format. *)
Example trade_text :
  fmt_tx_message_for_subscribers scalar_str seconds_str wei_str
    (TradesBody 200 (Some (JArr [JNull; trade_for "0xH1"]))) "0xabc" tx1
  = Ret (trade_message scalar_str "0xabc" "1700000001" tx1
           (JStr "Will it rain?") (JStr "Yes") (JStr "BUY") (JInt 1) (JInt 10)).
Proof. reflexivity. Qed.

(** A record whose time stamp is outside the calendar ends the cycle: with
    the watermark at the first transaction, nothing is sent, not even for
    the record that follows, and the watermark stays where it was. *)
Example cycle_stops_at_unrendered_record :
  poll_cycle scalar_str seconds_str wei_str (net_with [tx1; tx_far; tx2]) (store_at "0xh1")
  = (Raise ValueError, store_at "0xh1", []).
Proof. reflexivity. Qed.

(** A float that underflows to zero while it is decoded is falsy. *)
Example decoded_zero_is_falsy :
  truthy (JFloat "0.0") = false ∧ truthy (JFloat "-0.0") = false
  ∧ truthy (JFloat "1e-05") = true.
Proof. split_and!; reflexivity. Qed.

(** [len] and slices count code points, not bytes. *)
Example code_points :
  PyStr.len "0x→→→" = 5 ∧ String.length "0x→→→" = 11
  ∧ PyStr.take 3 "0x→→→" = "0x→".
Proof. split_and!; reflexivity. Qed.

(** ** The further properties on the sample data *)

Lemma norm_addr_idempotent_witness :
  PyStr.isascii (norm_addr " 0xAbC ") = true
  ∧ norm_addr (norm_addr " 0xAbC ") = norm_addr " 0xAbC "
  ∧ PyStr.strip (norm_addr " 0xAbC ") = norm_addr " 0xAbC "
  ∧ PyStr.lower (norm_addr " 0xAbC ") = norm_addr " 0xAbC "
  ∧ head_ok (norm_addr " 0xAbC ")
  ∧ ∀ c, last (list_ascii_of_string (norm_addr " 0xAbC ")) = Some c
         → PyStr.is_space c = false.
Proof.
  apply (norm_addr_idempotent " 0xAbC "). reflexivity.
Defined.

Lemma store_followed_wf : subs_wf store_followed.
Proof.
  intros cid. unfold watch_list. simpl.
  destruct (decide (cid = "42")); simpl; [|constructor].
  apply (bool_decide_unpack (NoDup ["0xabc"])). vm_compute. exact I.
Qed.

Lemma store_followed_normalized : subs_normalized store_followed.
Proof.
  intros cid a. unfold watch_list. simpl.
  destruct (decide (cid = "42")); simpl.
  - intros Ha. apply list_elem_of_singleton in Ha. rewrite Ha. reflexivity.
  - intros Ha. apply elem_of_nil in Ha. destruct Ha.
Qed.

Lemma watching_sample : "0xabc" ∈ watch_list "42" store_followed.
Proof. unfold watch_list. simpl. left. Qed.

Lemma not_watching_sample : "0xdef" ∉ watch_list "42" store_followed.
Proof.
  unfold watch_list. simpl. intros H. apply list_elem_of_singleton in H. discriminate H.
Qed.

Lemma remove_subscription_removes_witness :
  result_of (remove_subscription scalar_str (JInt 42) " 0xABC " store_followed) = Ret true
  ∧ seen (store_of (remove_subscription scalar_str (JInt 42) " 0xABC " store_followed))
    = seen store_followed.
Proof.
  destruct (remove_subscription_removes scalar_str (JInt 42) " 0xABC " store_followed)
    as (Hr & _ & _ & _ & Hs & _).
  - apply watching_sample.
  - apply store_followed_wf.
  - split; [exact Hr | exact Hs].
Defined.

Lemma add_subscription_appends_witness :
  result_of (add_subscription scalar_str (JInt 42) "0xDEF" store_followed) = Ret true
  ∧ watch_list "42" (store_of (add_subscription scalar_str (JInt 42) "0xDEF" store_followed))
    = ["0xabc"; "0xdef"].
Proof.
  destruct (add_subscription_appends scalar_str (JInt 42) "0xDEF" store_followed)
    as (Hr & Hl & _).
  - apply not_watching_sample.
  - split; [exact Hr | exact Hl].
Defined.

Lemma follow_then_unfollow_witness :
  watch_list "42"
    (store_of (remove_subscription scalar_str (JInt 42) " 0xdef "
                 (store_of (add_subscription scalar_str (JInt 42) "0xDEF" store_followed))))
  = watch_list "42" store_followed.
Proof.
  destruct (follow_then_unfollow scalar_str (JInt 42) "0xDEF" " 0xdef " store_followed)
    as (_ & _ & Hl & _).
  - reflexivity.
  - apply not_watching_sample.
  - exact (Hl "42").
Defined.

Lemma loops_keep_lists_clean_witness :
  subs_wf (store_of (process_update scalar_str seconds_str wei_str (net_with [])
                       (update_with "/follow 0xDEF") store_followed))
  ∧ subs_normalized (store_of (process_update scalar_str seconds_str wei_str (net_with [])
                                 (update_with "/follow 0xDEF") store_followed)).
Proof.
  apply (loops_keep_lists_clean scalar_str seconds_str wei_str (net_with [])
           (update_with "/follow 0xDEF") store_followed).
  - apply store_followed_wf.
  - apply store_followed_normalized.
Defined.

Lemma listed_address_can_be_removed_witness :
  result_of (remove_subscription scalar_str (JInt 42) "0xabc" store_followed) = Ret true.
Proof.
  apply (listed_address_can_be_removed scalar_str (JInt 42) "0xabc" store_followed).
  - apply store_followed_wf.
  - apply store_followed_normalized.
  - apply watching_sample.
Defined.

Lemma sample_hashes_distinct addr txs :
  polygonscan_txs_for_address (txlist (net_with [tx1; tx2; tx3]) addr) = Ret txs →
  NoDup (map tx_hash txs).
Proof.
  intros H. injection H as H. rewrite <- H.
  apply (bool_decide_unpack (NoDup (map tx_hash [tx1; tx2; tx3]))). vm_compute. exact I.
Qed.

Lemma repolling_is_silent_witness :
  result_of (poll_cycle scalar_str seconds_str wei_str (net_with [tx1; tx2; tx3])
               (store_at "0xh1")) = Ret tt
  ∧ sent (trace_of (poll_cycle scalar_str seconds_str wei_str (net_with [tx1; tx2; tx3])
                      (store_of (poll_cycle scalar_str seconds_str wei_str
                                   (net_with [tx1; tx2; tx3]) (store_at "0xh1")))))
    = [].
Proof.
  split; [reflexivity |].
  apply (repolling_is_silent scalar_str seconds_str wei_str (net_with [tx1; tx2; tx3])
           (store_at "0xh1")).
  - apply sample_hashes_distinct.
  - reflexivity.
Defined.

Lemma poll_cycle_all_fetches_fail_witness :
  poll_cycle scalar_str seconds_str wei_str net_down store_two
  = (Ret tt, store_two,
     map (fun a => Stdout (FetchError a RequestError))
       (elements (all_addresses (subs store_two)))).
Proof.
  apply (poll_cycle_all_fetches_fail scalar_str seconds_str wei_str net_down store_two).
  intros addr. reflexivity.
Defined.

Lemma store_two_sent :
  sent (trace_of (poll_cycle scalar_str seconds_str wei_str (net_with [tx1; tx2]) store_two))
  = [("42", plain_message "0xabc" "1700000002" "0e-18" tx2 "0xa9059cbb");
     ("77", plain_message "0xabc" "1700000002" "0e-18" tx2 "0xa9059cbb")].
Proof. reflexivity. Qed.

Lemma poll_cycle_notifies_watchers_only_witness :
  ∃ a lst txs w t,
    ("77", lst) ∈ subs store_two ∧ a ∈ lst
    ∧ polygonscan_txs_for_address (txlist (net_with [tx1; tx2]) a) = Ret txs
    ∧ seen_get a (seen store_two) = Some w
    ∧ t ∈ select_new w txs
    ∧ fmt_tx_message_for_subscribers scalar_str seconds_str wei_str
        (trades (net_with [tx1; tx2]) a t) a t
      = Ret (plain_message "0xabc" "1700000002" "0e-18" tx2 "0xa9059cbb").
Proof.
  apply (poll_cycle_notifies_watchers_only scalar_str seconds_str wei_str
           (net_with [tx1; tx2]) store_two "77"
           (plain_message "0xabc" "1700000002" "0e-18" tx2 "0xa9059cbb")).
  rewrite store_two_sent. right. left.
Defined.

Lemma first_matching_trade_is_used_witness :
  fmt_tx_message_for_subscribers scalar_str seconds_str wei_str
    (TradesBody 200 (Some (JArr [JNull; trade_for "0xH1"; trade_for "0xh1"]))) "0xabc" tx1
  = Ret ("*Polymarket Trade by* `0xabc`\n*Market:* Will it rain?\n*Outcome:* Yes\n"
         +:+ "*Side:* BUY | *Price:* 1 | *Size:* 10\n*Time:* 1700000001\n"
         +:+ "*Tx:* https://polygonscan.com/tx/0xh1\n").
Proof.
  apply (first_matching_trade_is_used scalar_str seconds_str wei_str
           (TradesBody 200 (Some (JArr [JNull; trade_for "0xH1"; trade_for "0xh1"])))
           "0xabc" tx1 "1700000001" "1000000000000000000e-18" [JNull]
           [("transactionHash", JStr "0xH1"); ("side", JStr "BUY"); ("price", JInt 1);
            ("size", JInt 10); ("title", JStr "Will it rain?"); ("outcome", JStr "Yes")]
           [trade_for "0xh1"]).
  - reflexivity.
  - apply Forall_cons_2; [left; reflexivity | apply Forall_nil_2].
  - split; [reflexivity |]. exists "0xH1".
    split; [reflexivity |]. split; [discriminate | reflexivity].
  - reflexivity.
  - reflexivity.
Defined.

Lemma unreadable_record_disables_enrichment_witness :
  fmt_tx_message_for_subscribers scalar_str seconds_str wei_str
    (TradesBody 200 (Some (JArr [JFloat "0.0"; JInt 5; trade_for "0xh1"]))) "0xabc" tx1
  = Ret (plain_message "0xabc" "1700000001" "1000000000000000000e-18" tx1 "0x").
Proof.
  apply (unreadable_record_disables_enrichment scalar_str seconds_str wei_str
           (TradesBody 200 (Some (JArr [JFloat "0.0"; JInt 5; trade_for "0xh1"])))
           "0xabc" tx1 "1700000001" "1000000000000000000e-18" "0x"
           [JFloat "0.0"] (JInt 5) [trade_for "0xh1"]).
  - reflexivity.
  - apply Forall_cons_2; [left; reflexivity | apply Forall_nil_2].
  - split; [reflexivity |]. left. exists AttributeError. reflexivity.
  - reflexivity.
  - reflexivity.
  - reflexivity.
Defined.

Lemma two_spaces : PyStr.all_space "  ".
Proof. repeat constructor. Qed.

Lemma Follow_no_space : PyStr.no_space "/Follow".
Proof. repeat constructor. Qed.

Lemma follow_takes_rest_of_text_witness :
  store_of (process_update scalar_str seconds_str wei_str (net_with [])
              (update_with " /Follow  Hello World ") store_followed)
  = store_of (add_subscription scalar_str (JInt 42) "Hello World" store_followed)
  ∧ sent (trace_of (process_update scalar_str seconds_str wei_str (net_with [])
                      (update_with " /Follow  Hello World ") store_followed))
    = [("42", "✅ Now following `hello world` for alerts.")].
Proof.
  destruct (follow_takes_rest_of_text scalar_str seconds_str wei_str (net_with [])
              (update_with " /Follow  Hello World ")
              [("chat", JObj [("id", JInt 42)]); ("text", JStr " /Follow  Hello World ")]
              (JInt 42) " /Follow  Hello World " "/Follow" "  " "Hello World"
              store_followed) as [H _].
  - reflexivity.
  - reflexivity.
  - reflexivity.
  - reflexivity.
  - reflexivity.
  - apply Follow_no_space.
  - apply two_spaces.
  - discriminate.
  - reflexivity.
  - discriminate.
  - destruct (H eq_refl) as (_ & Hst & Hsent). split; [exact Hst | exact Hsent].
Defined.

Lemma plain_text_is_answered_only_witness :
  process_update scalar_str seconds_str wei_str net_down (update_with "0x12345") store_followed
  = (Ret tt, store_followed, [SendTelegram "42" not_a_command_text])
  ∧ store_of (process_update scalar_str seconds_str wei_str net_down
                (update_with " 0x12345678 ") store_followed) = store_followed
  ∧ length (sent (trace_of (process_update scalar_str seconds_str wei_str net_down
                              (update_with " 0x12345678 ") store_followed))) = 2
  ∧ process_update scalar_str seconds_str wei_str (net_with [tx_far])
      (update_with " 0x12345678 ") store_followed
    = (Raise ValueError, store_followed, []).
Proof.
  split_and!.
  - apply (plain_text_is_answered_only scalar_str seconds_str wei_str net_down
             (update_with "0x12345")
             [("chat", JObj [("id", JInt 42)]); ("text", JStr "0x12345")]
             (JInt 42) "0x12345" store_followed);
      [reflexivity.. | discriminate | reflexivity].
  - rewrite (plain_text_is_answered_only scalar_str seconds_str wei_str net_down
               (update_with " 0x12345678 ")
               [("chat", JObj [("id", JInt 42)]); ("text", JStr " 0x12345678 ")]
               (JInt 42) " 0x12345678 " store_followed);
      [reflexivity | reflexivity.. | discriminate | reflexivity].
  - rewrite (plain_text_is_answered_only scalar_str seconds_str wei_str net_down
               (update_with " 0x12345678 ")
               [("chat", JObj [("id", JInt 42)]); ("text", JStr " 0x12345678 ")]
               (JInt 42) " 0x12345678 " store_followed);
      [reflexivity | reflexivity.. | discriminate | reflexivity].
  - rewrite (plain_text_is_answered_only scalar_str seconds_str wei_str (net_with [tx_far])
               (update_with " 0x12345678 ")
               [("chat", JObj [("id", JInt 42)]); ("text", JStr " 0x12345678 ")]
               (JInt 42) " 0x12345678 " store_followed);
      [reflexivity | reflexivity.. | discriminate | reflexivity].
Defined.

Lemma fmt_wallet_info_without_data_witness :
  fmt_wallet_info seconds_str wei_str net_down " 0xABC "
  = Ret (PyStr.join PyStr.nl
           ["*Wallet:* `0xabc`";
            "*Recent transactions:*";
            "_No recent transactions found or API returned empty._";
            PyStr.nl +:+
              "_Send /follow <address> to subscribe to alerts for this address._"]).
Proof.
  apply (fmt_wallet_info_without_data seconds_str wei_str net_down " 0xABC ").
  - intros bal H. discriminate H.
  - intros t l H. discriminate H.
Defined.

Lemma process_update_raises_cleanly_witness :
  process_update scalar_str seconds_str wei_str (net_with [tx1; tx_far])
    (update_with "/info 0xabc") store_followed
  = (Raise ValueError, store_followed, [])
  ∧ process_update_guarded scalar_str seconds_str wei_str (net_with [tx1; tx_far])
      (update_with "/info 0xabc") store_followed
    = (Ret tt, store_followed, [Stdout (UpdateError ValueError)]).
Proof.
  apply (process_update_raises_cleanly scalar_str seconds_str wei_str
           (net_with [tx1; tx_far]) (update_with "/info 0xabc") store_followed ValueError).
  reflexivity.
Defined.

Lemma unrendered_record_ends_cycle_witness :
  poll_cycle scalar_str seconds_str wei_str (net_with [tx1; tx2; tx_far; tx3])
    (store_at "0xh1")
  = (Raise ValueError, store_at "0xh2",
     [SendTelegram "42" (plain_message "0xabc" "1700000002" "0e-18" tx2 "0xa9059cbb");
      Stdout (AlertSent "0xabc" "0xh2");
      SaveSeen (seen (store_at "0xh2"))])
  ∧ seen_get "0xabc"
      (seen (store_of (poll_cycle scalar_str seconds_str wei_str
                         (net_with [tx1; tx2; tx_far; tx3]) (store_at "0xh1"))))
    = Some "0xh2".
Proof.
  split; [reflexivity |].
  destruct (unrendered_record_ends_cycle scalar_str seconds_str wei_str
              (net_with [tx1; tx2; tx_far; tx3]) (store_at "0xh1") "0xabc" (store_at "0xh1")
              "0xh1" [tx1; tx2; tx_far; tx3] [tx2] tx_far [tx3] ValueError)
    as (_ & _ & _ & _ & Hend).
  - apply visits_at.
  - reflexivity.
  - reflexivity.
  - reflexivity.
  - apply Forall_cons_2; [eexists; reflexivity | apply Forall_nil_2].
  - reflexivity.
  - exact Hend.
Defined.
